(** * periph: waveform model, rasterizer, clock divisor solver, NRZ encoder

    A shallow embedding of
    - [host/bcm283x] clock code: [findDivisorExact], [findDivisor];
    - [conn/gpio/stream]: [Bits], [Edges], [Program], [Raster32];
    - [devices/sk6812rgbw]: [expandNRZ].

    Conventions.  Go's [uint64], [uint32] and [byte] values are integers of
    [Z] kept in range by an explicit reduction wherever the source operation
    can leave the range; [time.Duration] is a signed 64-bit integer, its
    products and sums are reduced with [int64].  Slices are lists, lengths
    and indices are [nat]; an index out of range is a run-time panic. *)

From Stdlib Require Import ZArith Lia Bool List.
From stdpp Require Import base list strings.

Local Open Scope Z_scope.

(** ** Machine integers *)

Definition two32 : Z := Eval cbv in 2 ^ 32.
Definition two63 : Z := Eval cbv in 2 ^ 63.
Definition two64 : Z := Eval cbv in 2 ^ 64.

Definition uint64 (z : Z) : Z := z mod two64.
Definition uint32 (z : Z) : Z := z mod two32.
Definition uint8 (z : Z) : Z := z mod 256.
Definition uint16 (z : Z) : Z := z mod 65536.
Definition int64 (z : Z) : Z := (z + two63) mod two64 - two63.

(** Largest value of Go's [int] (64-bit targets). *)
Definition max_int : Z := two63 - 1.
Definition max_int64 : Z := two63 - 1.

(** Outcome of a Go call that may panic, or whose unbounded [for] loop is
    run here with a bound on the number of iterations. *)
Inductive result (A : Type) : Type :=
| Ret (a : A)
| Panic
| OutOfFuel.
Arguments Ret {A} a.
Arguments Panic {A}.
Arguments OutOfFuel {A}.

(** ** Clock divisor solver (package bcm283x) *)

Module bcm283x.

(** Inner loop of [findDivisorExact]:
    [for i := j; i <= x; i++ { if d%uint64(i) == 0 && d/uint64(i) == desiredHz { return i, j } }].
    [n] is the number of iterations left, [i] the counter. *)
Fixpoint findDivisorExact_x (n : nat) (d desiredHz i : Z) : option Z :=
  match n with
  | O => None
  | S n' =>
      if (d mod uint64 i =? 0) && (d / uint64 i =? desiredHz) then Some i
      else findDivisorExact_x n' d desiredHz (i + 1)
  end.

(** Outer loop of [findDivisorExact]: [for j := 1; j <= y; j++ { ... }],
    with its [continue], [break] and [return]. *)
Fixpoint findDivisorExact_y (n : nat) (srcHz desiredHz x j : Z) : Z * Z :=
  match n with
  | O => (0, 0)
  | S n' =>
      if negb (srcHz mod uint64 j =? 0) then
        findDivisorExact_y n' srcHz desiredHz x (j + 1)
      else
        let d := srcHz / uint64 j in
        if d <? desiredHz then (0, 0)
        else
          match findDivisorExact_x (Z.to_nat (x - j + 1)) d desiredHz j with
          | Some i => (i, j)
          | None => findDivisorExact_y n' srcHz desiredHz x (j + 1)
          end
  end.

Definition findDivisorExact (srcHz desiredHz x y : Z) : result (Z * Z) :=
  if x <? y then Panic
  else Ret (findDivisorExact_y (Z.to_nat y) srcHz desiredHz x 1).

(** The oversampling loop of [findDivisor]:
    [for i := uint64(2); ; i++ { d := i * desiredHz; if d > 100000 && i > 10 { break } ... }].
    [Ret None] is the [break]. *)
Fixpoint findDivisor_oversample (fuel : nat) (srcHz desiredHz x y i : Z)
  : result (option (Z * Z * Z)) :=
  match fuel with
  | O => OutOfFuel
  | S fuel' =>
      let d := uint64 (i * desiredHz) in
      if (d >? 100000) && (i >? 10) then Ret None
      else
        match findDivisorExact srcHz d x y with
        | Ret (m, n) =>
            if negb (m =? 0) then Ret (Some (m, n, d))
            else findDivisor_oversample fuel' srcHz desiredHz x y (uint64 (i + 1))
        | Panic => Panic
        | OutOfFuel => OutOfFuel
        end
  end.

(** Locals of the error-minimizing search: [minErr], [selected], [m], [n]. *)
Record best := { minErr : Z; selected : Z; best_m : Z; best_n : Z }.

(** [for j := 1; j <= maxY; j++ { ... }] of the error-minimizing search. *)
Fixpoint findDivisor_err_y (n : nat) (srcHz desiredHz i j : Z) (b : best) : best :=
  match n with
  | O => b
  | S n' =>
      let actual := (srcHz / uint64 i) / uint64 j in
      let err := uint64 (actual - desiredHz) in
      let err := if err <? 0 then uint64 (- err) else err in
      let b' :=
        if minErr b >? err
        then {| minErr := err; selected := actual; best_m := i; best_n := j |}
        else b in
      findDivisor_err_y n' srcHz desiredHz i (j + 1) b'
  end.

(** [for i := 1; i <= x; i++ { maxY := y; if maxY > i { maxY = i }; ... }]. *)
Fixpoint findDivisor_err_x (n : nat) (srcHz desiredHz y i : Z) (b : best) : best :=
  match n with
  | O => b
  | S n' =>
      let maxY := if y >? i then i else y in
      let b' := findDivisor_err_y (Z.to_nat maxY) srcHz desiredHz i 1 b in
      findDivisor_err_x n' srcHz desiredHz y (i + 1) b'
  end.

(** [findDivisor] returns [(x, y, actual frequency, error)]. *)
Definition findDivisor (fuel : nat) (srcHz desiredHz x y : Z)
  : result (Z * Z * Z * Z) :=
  match findDivisorExact srcHz desiredHz x y with
  | Panic => Panic
  | OutOfFuel => OutOfFuel
  | Ret (m, n) =>
      if negb (m =? 0) then Ret (m, n, desiredHz, 0)
      else
        match findDivisor_oversample fuel srcHz desiredHz x y 2 with
        | Panic => Panic
        | OutOfFuel => OutOfFuel
        | Ret (Some (m, n, d)) => Ret (m, n, d, 0)
        | Ret None =>
            let desiredHz := uint64 (desiredHz * 200) in
            let srcHz := uint64 (srcHz * 100) in
            let b0 := {| minErr := 0xFFFFFFFFFFFFFFF; selected := 0;
                         best_m := 0; best_n := 0 |} in
            let b := findDivisor_err_x (Z.to_nat x) srcHz desiredHz y 1 b0 in
            Ret (best_m b, best_n b, selected b / 100, minErr b / 100)
        end
  end.

(** Clock sources and limits: [clk19dot2MHz], [clk500MHz],
    [clockSrc19dot2MHz], [clockSrcPLLD], [clockDiviMax = (1 << 12) - 1]. *)
Definition clk19dot2MHz : Z := 19200000.
Definition clk500MHz : Z := 500000000.
Definition clockSrc19dot2MHz : Z := 1.
Definition clockSrcPLLD : Z := 6.
Definition clockDiviMax : Z := Z.shiftl 1 12 - 1.

(** An [error] built by [fmt.Errorf]: the format and its arguments. *)
Inductive error_value : Type :=
| Errorf (format : string) (args : list Z).

Definition error := option error_value.

(** [calcSource] returns [(clockCtl, x, y, actual frequency, error)]. *)
Definition calcSource (fuel : nat) (hz maxDiv : Z)
  : result (Z * Z * Z * Z * error) :=
  if hz >? 25000000 then
    Ret (0, 0, 0, 0,
         Some (Errorf "bcm283x-clock: desired frequency %dHz is too high"
                 [hz]))
  else
    match findDivisor fuel clk19dot2MHz hz clockDiviMax maxDiv with
    | Panic => Panic
    | OutOfFuel => OutOfFuel
    | Ret (x19, y19, actual19, rest19) =>
        if rest19 =? 0 then Ret (clockSrc19dot2MHz, x19, y19, actual19, None)
        else
          match findDivisor fuel clk500MHz hz clockDiviMax maxDiv with
          | Panic => Panic
          | OutOfFuel => OutOfFuel
          | Ret (x500, y500, actual500, rest500) =>
              if rest500 =? 0 then
                Ret (clockSrcPLLD, x500, y500, actual500, None)
              else if rest19 <? rest500 then
                Ret (clockSrc19dot2MHz, x19, y19, actual19, None)
              else Ret (clockSrcPLLD, x500, y500, actual500, None)
          end
    end.

End bcm283x.

(** An exact divider pair, as the solver's contract words it:
    [x] in [1, xMax], [y] in [1, yMax], [x >= y] and [srcHz / (x*y)] is an
    exact integer quotient equal to [desiredHz]. *)
Definition exact_pair (srcHz desiredHz xMax yMax x y : Z) : Prop :=
  1 <= x <= xMax /\ 1 <= y <= yMax /\ y <= x
  /\ srcHz mod (x * y) = 0 /\ srcHz / (x * y) = desiredHz.

(** The error the error-minimizing search of [findDivisor] computes for
    the pair [(i, j)], on the scaled frequencies: an unsigned difference,
    so a pair whose frequency is below the target wraps around to a value
    close to [2^64]. *)
Definition fallback_err (srcHz desiredHz i j : Z) : Z :=
  uint64 (srcHz / i / j - desiredHz).

(** The locals of the error-minimizing search before its first round. *)
Definition best0 : bcm283x.best :=
  {| bcm283x.minErr := 0xFFFFFFFFFFFFFFF; bcm283x.selected := 0;
     bcm283x.best_m := 0; bcm283x.best_n := 0 |}.

(** [(i, j)] is visited before the search reaches [(i0, j0)]. *)
Definition visited (i j i0 j0 : Z) : Prop := i < i0 \/ (i = i0 /\ j < j0).

(** Invariant of the error-minimizing search when it reaches [(i0, j0)]:
    [minErr] is below the error of every pair visited, and the locals are
    either untouched or describe a visited pair. *)
Definition err_inv (srcHz desiredHz y i0 j0 : Z) (b : bcm283x.best) : Prop :=
  (forall i j, 1 <= i -> 1 <= j <= Z.min i y -> visited i j i0 j0 ->
     bcm283x.minErr b <= fallback_err srcHz desiredHz i j)
  /\ (b = best0
      \/ (1 <= bcm283x.best_m b
          /\ 1 <= bcm283x.best_n b <= Z.min (bcm283x.best_m b) y
          /\ visited (bcm283x.best_m b) (bcm283x.best_n b) i0 j0
          /\ bcm283x.selected b
             = srcHz / bcm283x.best_m b / bcm283x.best_n b
          /\ bcm283x.minErr b
             = fallback_err srcHz desiredHz
                 (bcm283x.best_m b) (bcm283x.best_n b)
          /\ bcm283x.minErr b < 0xFFFFFFFFFFFFFFF)).

(** Bound kept by the counter [i] of the oversampling loop: its product
    with [desiredHz] has not wrapped around. *)
Definition in_cap (desiredHz i : Z) : Prop :=
  2 <= i /\ i * desiredHz <= Z.max 100000 (10 * desiredHz) + desiredHz.

(** Rounds of the oversampling loop after which it has certainly exited:
    the first factor above 10 whose product with [desiredHz] exceeds
    100 kHz. *)
Definition oversample_rounds (desiredHz : Z) : nat :=
  Z.to_nat (Z.max 11 (100000 / desiredHz + 1)).

(** ** Waveform model and rasterizer (packages gpio and stream) *)

Module gpio.

(** [type Level bool] with [Low = false] and [High = true]. *)
Definition Level := bool.
Definition Low : Level := false.
Definition High : Level := true.

(** [type Bits []byte]: densely packed, bit 0 of each byte first. *)
Abbreviation Bits := (list Z).

(** [Duty] is a [uint16]; [DutyMax] is a duty cycle of 100%. *)
Definition DutyMax : Z := 65535.
Definition DutyHalf : Z := DutyMax / 2.

(** The number [Duty.String] prints before the percent sign:
    [(uint32(d)+50)/(uint32(DutyMax)/100)]. *)
Definition Duty_percent (d : Z) : Z :=
  uint32 (uint32 d + 50) / (uint32 DutyMax / 100).

(** [Duty.String]: [fmt.Sprintf("%d%%", ...)]; the decimal printer of the
    Go library is the parameter [Sprintf_d]. *)
Definition Duty_String (Sprintf_d : Z -> string) (d : Z) : string :=
  String.append (Sprintf_d (Duty_percent d)) "%".

(** [strings.HasSuffix]. *)
Definition HasSuffix (s suffix : string) : bool :=
  (String.length suffix <=? String.length s)%nat
  && String.eqb
       (String.substring (String.length s - String.length suffix)
          (String.length suffix) s)
       suffix.

(** The errors of [ParseDuty]: [errors.New], [fmt.Errorf] with its
    arguments, or the error of [strconv.ParseInt]. *)
Inductive error (E : Type) : Type :=
| errors_New (msg : string)
| fmt_Errorf (format : string) (args : list Z)
| strconv_error (e : E).
Arguments errors_New {E} msg.
Arguments fmt_Errorf {E} format args.
Arguments strconv_error {E} e.

(** [ParseDuty] returns [(Duty, error)].  [strconv.ParseInt] of the Go
    library is the parameter [ParseInt], called as
    [ParseInt s 10 32]. *)
Definition ParseDuty {E : Type}
    (ParseInt : string -> Z -> Z -> Z * option E) (s : string)
  : Z * option (error E) :=
  let percent := HasSuffix s "%" in
  let s := if percent then String.substring 0 (String.length s - 1) s
           else s in
  let '(i, err) := ParseInt s 10 32 in
  match err with
  | Some e => (0, Some (strconv_error e))
  | None =>
      if percent then
        if i <? 0 then (0, Some (errors_New "duty must be >= 0%"))
        else if i >? 100 then (0, Some (errors_New "duty must be <= 100%"))
        else (uint16 ((i * DutyMax + 49) / 100), None)
      else
        if i <? 0 then (0, Some (errors_New "duty must be >= 0"))
        else if i >? DutyMax then
          (0, Some (fmt_Errorf "duty must be <= %d" [DutyMax]))
        else (uint16 i, None)
  end.

End gpio.

(** Decidable form of the percentage round trip: the duty that
    [ParseDuty] computes for [p] percent is in range and prints as [p]. *)
Definition percent_roundtrip_ok (p : Z) : bool :=
  let d := uint16 ((p * gpio.DutyMax + 49) / 100) in
  (gpio.Duty_percent d =? p) && (0 <=? d) && (d <=? gpio.DutyMax).

Module stream.

(** Go's [error]: [nil], or [errors.New msg]. *)
Definition error := option string.

(** [for i := i0; i < i0 + n; i++ { body }] over a state [St], where the
    body may panic. *)
Fixpoint for_range {St : Type} (n : nat) (i : nat)
    (body : nat -> St -> result St) (s : St) : result St :=
  match n with
  | O => Ret s
  | S n' =>
      match body i s with
      | Ret s' => for_range n' (S i) body s'
      | Panic => Panic
      | OutOfFuel => OutOfFuel
      end
  end.

(** [buf[k] |= mask]; an index out of range panics. *)
Definition or_at (buf : list Z) (k : nat) (mask : Z) : result (list Z) :=
  match buf !! k with
  | Some v => Ret (<[k := Z.lor v mask]> buf)
  | None => Panic
  end.

(** The two caller-owned slices [clear] and [set], in this order. *)
Definition bufs := (list Z * list Z)%type.

Record Bits := { Bits_Bits : gpio.Bits; Bits_Res : Z }.

Definition Bits_Resolution (b : Bits) : Z := Bits_Res b.

Definition Bits_Duration (b : Bits) : Z :=
  int64 (Bits_Res b * Z.of_nat (length (Bits_Bits b))).

(** Body of the inner loop of [Bits.raster32], for byte [byte] at index
    [i] and bit [j]. *)
Definition Bits_raster32_bit (setMask clearMask : Z) (byte : Z) (i j : nat)
    (st : bufs) : result bufs :=
  let '(clear, set) := st in
  if negb (Z.land byte (uint8 (Z.shiftl 1 (Z.of_nat j))) =? 0) then
    match or_at set (8 * i + j) setMask with
    | Ret set' => Ret (clear, set')
    | Panic => Panic
    | OutOfFuel => OutOfFuel
    end
  else
    match or_at clear (8 * i + j) clearMask with
    | Ret clear' => Ret (clear', set)
    | Panic => Panic
    | OutOfFuel => OutOfFuel
    end.

(** Body of the outer loop of [Bits.raster32]: reads [b.Bits[i]] and runs
    [for j := 0; j < 8; j++]. *)
Definition Bits_raster32_byte (setMask clearMask : Z) (bits : gpio.Bits)
    (i : nat) (st : bufs) : result bufs :=
  match bits !! i with
  | Some byte =>
      for_range 8 0 (Bits_raster32_bit setMask clearMask byte i) st
  | None => Panic
  end.

Definition Bits_raster32 (b : Bits) (resolution : Z) (clear set : list Z)
    (setMask clearMask : Z) : result (error * bufs) :=
  if negb (resolution =? Bits_Res b) then
    Ret (Some "TODO: implement resolution matching", (clear, set))
  else if Bits_Duration b >? int64 (resolution * Z.of_nat (length clear)) then
    Ret (Some "buffer is too short", (clear, set))
  else
    let m := (length clear / 8)%nat in
    let m := let n := length (Bits_Bits b) in
             if (n <? m)%nat then n else m in
    match for_range m 0 (Bits_raster32_byte setMask clearMask (Bits_Bits b))
            (clear, set) with
    | Ret st => Ret (None, st)
    | Panic => Panic
    | OutOfFuel => OutOfFuel
    end.

Record Edges := { Edges_Edges : list Z; Edges_Res : Z }.

Definition Edges_Resolution (e : Edges) : Z := Edges_Res e.

Definition Edges_Duration (e : Edges) : Z :=
  fold_left (fun t edge => int64 (t + edge)) (Edges_Edges e) 0.

(** Body of the loop of [Edges.raster32]; [l] is the local [l]. *)
Definition Edges_raster32_slot (setMask clearMask : Z) (l : gpio.Level)
    (i : nat) (st : bufs) : result bufs :=
  let '(clear, set) := st in
  if l then
    match or_at set i setMask with
    | Ret set' => Ret (clear, set')
    | Panic => Panic
    | OutOfFuel => OutOfFuel
    end
  else
    match or_at clear i clearMask with
    | Ret clear' => Ret (clear', set)
    | Panic => Panic
    | OutOfFuel => OutOfFuel
    end.

Definition Edges_raster32 (e : Edges) (resolution : Z) (clear set : list Z)
    (setMask clearMask : Z) : result (error * bufs) :=
  if resolution <? Edges_Res e then
    Ret (Some "resolution is too coarse", (clear, set))
  else if Edges_Duration e >? int64 (resolution * Z.of_nat (length clear)) then
    Ret (Some "buffer is too short", (clear, set))
  else
    let l := gpio.High in
    match for_range (length clear) 0
            (Edges_raster32_slot setMask clearMask l) (clear, set) with
    | Ret st => Ret (None, st)
    | Panic => Panic
    | OutOfFuel => OutOfFuel
    end.

(** [gpio.Stream] values: the three implementations of this package, and
    any other implementation of the interface, known by its two methods. *)
#[warnings="-register-all"]
Inductive Stream : Type :=
| SBits (b : Bits)
| SEdges (e : Edges)
| SProgram (Parts : list Stream) (Res : Z) (Loops : Z)
| SOther (resolution duration : Z).

Fixpoint Duration (s : Stream) : Z :=
  match s with
  | SBits b => Bits_Duration b
  | SEdges e => Edges_Duration e
  | SProgram Parts _ Loops =>
      let d := fold_left (fun d s => int64 (d + Duration s)) Parts 0 in
      if Loops >? 1 then int64 (d * Loops) else d
  | SOther _ duration => duration
  end.

Definition Resolution (s : Stream) : Z :=
  match s with
  | SBits b => Bits_Resolution b
  | SEdges e => Edges_Resolution e
  | SProgram _ Res _ => Res
  | SOther resolution _ => resolution
  end.

Definition Program_raster32 (Parts : list Stream) (Res Loops : Z)
    (resolution : Z) (clear set : list Z) (setMask clearMask : Z)
  : result (error * bufs) :=
  Ret (Some "implement me", (clear, set)).

Definition Raster32 (s : Stream) (resolution : Z) (clear set : list Z)
    (setMask clearMask : Z) : result (error * bufs) :=
  if setMask =? 0 then Ret (Some "setMask is 0", (clear, set))
  else if clearMask =? 0 then Ret (Some "clearMask is 0", (clear, set))
  else if (length clear =? 0)%nat then
    Ret (Some "clear buffer is empty", (clear, set))
  else if (length set =? 0)%nat then
    Ret (Some "set buffer is empty", (clear, set))
  else if negb (length clear =? length set)%nat then
    Ret (Some "clear and set buffers have different length", (clear, set))
  else
    match s with
    | SBits x => Bits_raster32 x resolution clear set setMask clearMask
    | SEdges x => Edges_raster32 x resolution clear set setMask clearMask
    | SProgram Parts Res Loops =>
        Program_raster32 Parts Res Loops resolution clear set setMask clearMask
    | SOther _ _ => Ret (Some "stream: unknown type", (clear, set))
    end.

End stream.

(** Bit [k] of a [gpio.Bits] stream: "bit 0 is sent first, up to bit 7"
    of each byte in turn. *)
Definition stream_bit (bits : gpio.Bits) (k : nat) : bool :=
  match bits !! (k / 8)%nat with
  | Some byte => Z.testbit byte (Z.of_nat (k mod 8))
  | None => false
  end.

(** The level of an [Edges] waveform at time [t], as the type documents
    it: "Edges is the list of Level change. The first starts with a High;
    use a duration of 0 to start with a Low."  [l] is the level held
    during the first edge of the list. *)
Fixpoint Edges_level_from (l : gpio.Level) (edges : list Z) (t : Z)
  : gpio.Level :=
  match edges with
  | [] => l
  | d :: rest => if t <? d then l else Edges_level_from (negb l) rest (t - d)
  end.

Definition Edges_level_at (edges : list Z) (t : Z) : gpio.Level :=
  Edges_level_from gpio.High edges t.

(** [buf] is [buf0] with [mask] OR-ed into the slots below [P] selected
    by [sel]; every other slot, and every slot from [P] on, is as in
    [buf0]. *)
Definition masked (sel : nat -> bool) (mask : Z) (P : nat)
    (buf0 buf : list Z) : Prop :=
  forall k : nat,
    buf !! k
    = (fun v => if (k <? P)%nat && sel k then Z.lor v mask else v)
        <$> buf0 !! k.

(** The state reached after the slots below [P] were rasterized with the
    level function [lvl]. *)
Definition rastered (lvl : nat -> bool) (setMask clearMask : Z) (P : nat)
    (st0 st : stream.bufs) : Prop :=
  masked (fun k => negb (lvl k)) clearMask P st0.1 st.1
  /\ masked lvl setMask P st0.2 st.2.

(** Rasterizing [b] at its own resolution into [clear] and [set] succeeds
    and reads back as the bit pattern of [b]: for every sample index
    [i < 8 * len(b.Bits)], [(set[i] & setMask) != 0] iff bit [i] is 1, and
    [(clear[i] & clearMask) != 0] iff bit [i] is 0. *)
Definition Bits_readback (b : stream.Bits) (clear set : list Z)
    (setMask clearMask : Z) : Prop :=
  exists clear' set' : list Z,
    stream.Raster32 (stream.SBits b) (stream.Bits_Res b) clear set
      setMask clearMask = Ret (None, (clear', set'))
    /\ forall i : nat, (i < 8 * length (stream.Bits_Bits b))%nat ->
         exists s c : Z,
           set' !! i = Some s /\ clear' !! i = Some c
           /\ (Z.land s setMask <> 0
               <-> stream_bit (stream.Bits_Bits b) i = true)
           /\ (Z.land c clearMask <> 0
               <-> stream_bit (stream.Bits_Bits b) i = false).

(** Sum of a list of durations, on the mathematical integers. *)
Definition sum_durations (l : list Z) : Z := fold_right Z.add 0 l.

(** ** Protocol bit encoder (package sk6812rgbw) *)

Module sk6812rgbw.

Definition expandNRZ (b : Z) : Z :=
  let out := uint32 0x924924 in
  let out := Z.lor out (uint32 (Z.shiftl (uint32 (Z.land b 0x80)) (3*7 + 1 - 7))) in
  let out := Z.lor out (uint32 (Z.shiftl (uint32 (Z.land b 0x40)) (3*6 + 1 - 6))) in
  let out := Z.lor out (uint32 (Z.shiftl (uint32 (Z.land b 0x20)) (3*5 + 1 - 5))) in
  let out := Z.lor out (uint32 (Z.shiftl (uint32 (Z.land b 0x10)) (3*4 + 1 - 4))) in
  let out := Z.lor out (uint32 (Z.shiftl (uint32 (Z.land b 0x08)) (3*3 + 1 - 3))) in
  let out := Z.lor out (uint32 (Z.shiftl (uint32 (Z.land b 0x04)) (3*2 + 1 - 2))) in
  let out := Z.lor out (uint32 (Z.shiftl (uint32 (Z.land b 0x02)) (3*1 + 1 - 1))) in
  let out := Z.lor out (uint32 (Z.shiftl (uint32 (Z.land b 0x01)) (3*0 + 1 - 0))) in
  out.

(** Sequencing of steps that may panic. *)
#[local] Instance result_bind : MBind result :=
  fun A B (f : A -> result B) (m : result A) =>
    match m with
    | Ret a => f a
    | Panic => Panic
    | OutOfFuel => OutOfFuel
    end.

(** [l[i]] read and [out[i] = v] written; an index out of range panics. *)
Definition index (l : list Z) (i : nat) : result Z :=
  match l !! i with
  | Some v => Ret v
  | None => Panic
  end.

Definition store (out : list Z) (i : nat) (v : Z) : result (list Z) :=
  if (i <? length out)%nat then Ret (<[i := v]> out) else Panic.

(** Body of the loop of [raster] for the counter [i]. *)
Definition raster_pixel (in_ : list Z) (i : nat) (out : list Z)
  : result (list Z) :=
  (* Encoded format is GRB as 72 bits. *)
  g ← index in_ (i + 1);
  let g := expandNRZ g in
  out ← store out (3 * i + 0) (uint8 (Z.shiftr g 16));
  out ← store out (3 * i + 0) (uint8 (Z.shiftr g 8));
  out ← store out (3 * i + 0) (uint8 g);
  r ← index in_ i;
  let r := expandNRZ r in
  out ← store out (3 * i + 0) (uint8 (Z.shiftr r 16));
  out ← store out (3 * i + 0) (uint8 (Z.shiftr r 8));
  out ← store out (3 * i + 0) (uint8 r);
  b ← index in_ (i + 2);
  let b := expandNRZ b in
  out ← store out (3 * i + 0) (uint8 (Z.shiftr b 16));
  out ← store out (3 * i + 0) (uint8 (Z.shiftr b 8));
  store out (3 * i + 0) (uint8 b).

(** [for i := 0; i < len(in); i += 3 { ... }]: round [t] runs with
    [i = 3 * t], and there are [ceil (len(in) / 3)] rounds.  The result is
    the content of [out] after the call. *)
Definition raster (out in_ : list Z) : result (list Z) :=
  stream.for_range ((length in_ + 2) / 3) 0
    (fun t out => raster_pixel in_ (3 * t) out) out.

Definition errLength : string := "sk6218rgbw: invalid RGB stream length".

(** [Dev] without its pin [p]; the pin's [Stream] method is the parameter
    [pStream] of [Write]. *)
Record Dev := { numLights : Z; b : stream.Bits }.

(** [Dev.Write] returns [(n, err)]; the device comes back with the buffer
    as [raster] left it. *)
Definition Write (pStream : stream.Bits -> option string) (d : Dev)
    (pixels : list Z) : result (Dev * (Z * option string)) :=
  if negb (Z.of_nat (length pixels) mod 3 =? 0) then
    Ret (d, (0, Some errLength))
  else
    bits ← raster (stream.Bits_Bits (b d)) pixels;
    let d' := {| numLights := numLights d;
                 b := {| stream.Bits_Bits := bits;
                         stream.Bits_Res := stream.Bits_Res (b d) |} |} in
    let err := pStream (b d') in
    Ret (d', (Z.of_nat (length pixels), err)).

(** [New] returns the device and an error.  [isStreamer] says whether the pin
    implements [gpio.PinStreamer]; [make] panics on a negative length. *)
Definition New (isStreamer : bool) (numLights speed : Z)
  : result (option Dev * option string) :=
  if negb isStreamer then
    Ret (None, Some "sk6812rgbw: pin must implement gpio.PinStreamer")
  else
    let speed := if speed =? 0 then 400000 else speed in
    if numLights * 4 * 4 <? 0 then Panic
    else
      Ret (Some {| numLights := numLights;
                   b := {| stream.Bits_Bits :=
                             replicate (Z.to_nat (numLights * 4 * 4)) 0;
                           stream.Bits_Res :=
                             Z.quot 1000000000 speed |} |},
           None).

End sk6812rgbw.

(** The three output bits of input bit [k]: lead 1, the data bit, trail
    0, at positions [3k+2], [3k+1], [3k]. *)
Definition expandNRZ_group (b out k : Z) : bool :=
  Z.testbit out (3 * k + 2)
  && Bool.eqb (Z.testbit out (3 * k + 1)) (Z.testbit b k)
  && negb (Z.testbit out (3 * k)).

(** The 24-bit bound and the eight groups, as one decidable check. *)
Definition expandNRZ_check (b : Z) : bool :=
  let out := sk6812rgbw.expandNRZ b in
  (0 <=? out) && (out <? 2 ^ 24)
  && forallb (fun k => expandNRZ_group b out (Z.of_nat k)) (seq 0 8).

(** * Proofs *)

(** ** Facts about the machine integers *)

Lemma uint64_small z : 0 <= z < two64 -> uint64 z = z.
Proof. intros H. unfold uint64. apply Z.mod_small. lia. Qed.

Lemma max_int_lt_two64 : max_int < two64.
Proof. reflexivity. Qed.

(** ** The exact search *)

Section ExactSearch.

Variables srcHz desiredHz : Z.

(** The test of the inner loop, on the mathematical integers. *)
Lemma exact_cond_iff i j :
  1 <= i -> 1 <= j ->
  (srcHz mod j = 0 /\ (srcHz / j) mod i = 0 /\ srcHz / j / i = desiredHz)
  <-> srcHz = i * j * desiredHz.
Proof.
  intros Hi Hj. split.
  - intros (H1 & H2 & H3).
    pose proof (Z.div_mod srcHz j ltac:(lia)) as E1.
    pose proof (Z.div_mod (srcHz / j) i ltac:(lia)) as E2.
    rewrite H1 in E1. rewrite H2, H3 in E2.
    rewrite E1, E2. ring.
  - intros ->.
    assert (A : i * j * desiredHz = i * desiredHz * j) by ring.
    assert (B : i * desiredHz = desiredHz * i) by ring.
    rewrite A, Z.mod_mul, Z.div_mul by lia.
    rewrite B, Z.mod_mul, Z.div_mul by lia.
    auto.
Qed.

Lemma findDivisorExact_x_spec n : forall d i0,
  match bcm283x.findDivisorExact_x n d desiredHz i0 with
  | Some i => i0 <= i < i0 + Z.of_nat n
              /\ d mod uint64 i = 0 /\ d / uint64 i = desiredHz
  | None => forall i, i0 <= i < i0 + Z.of_nat n ->
              ~ (d mod uint64 i = 0 /\ d / uint64 i = desiredHz)
  end.
Proof.
  induction n as [|n IH]; intros d i0; cbn [bcm283x.findDivisorExact_x].
  - intros i Hi. lia.
  - destruct ((d mod uint64 i0 =? 0) && (d / uint64 i0 =? desiredHz)) eqn:E.
    + apply andb_true_iff in E as [E1 E2].
      apply Z.eqb_eq in E1, E2. repeat split; auto; lia.
    + specialize (IH d (i0 + 1)).
      destruct (bcm283x.findDivisorExact_x n d desiredHz (i0 + 1)) as [i|].
      * destruct IH as (Hr & H1 & H2). repeat split; auto; lia.
      * intros i Hi [A B].
        destruct (Z.eq_dec i i0) as [->|Hne].
        -- rewrite A, B, !Z.eqb_refl in E. discriminate.
        -- apply (IH i); [lia | auto].
  Qed.

(** What the outer loop returns when started at [j0] with [n] iterations
    left: either nothing, and then no pair with [j] in the scanned range is
    exact, or the exact pair with the least [j]. *)
Lemma findDivisorExact_y_spec n : forall x j0,
  1 <= desiredHz -> 1 <= j0 -> j0 + Z.of_nat n <= two64 -> x < two64 ->
  let r := bcm283x.findDivisorExact_y n srcHz desiredHz x j0 in
  (r = (0, 0) /\
   forall i j, j0 <= j < j0 + Z.of_nat n -> j <= i <= x ->
               srcHz <> i * j * desiredHz)
  \/ (exists m k, r = (m, k) /\ j0 <= k < j0 + Z.of_nat n /\ k <= m <= x
        /\ srcHz = m * k * desiredHz
        /\ forall i j, j0 <= j < k -> j <= i <= x ->
                       srcHz <> i * j * desiredHz).
Proof.
  induction n as [|n IH]; intros x j0 Hdes Hj0 Hn Hx;
    cbn [bcm283x.findDivisorExact_y].
  - left. split; [reflexivity | intros; lia].
  - rewrite (uint64_small j0) by lia.
    assert (Hskip : forall r,
      (forall i, j0 <= i <= x -> srcHz <> i * j0 * desiredHz) ->
      ((r = (0, 0) /\
        forall i j, j0 + 1 <= j < j0 + 1 + Z.of_nat n -> j <= i <= x ->
                    srcHz <> i * j * desiredHz)
       \/ (exists m k, r = (m, k) /\ j0 + 1 <= k < j0 + 1 + Z.of_nat n
             /\ k <= m <= x /\ srcHz = m * k * desiredHz
             /\ forall i j, j0 + 1 <= j < k -> j <= i <= x ->
                            srcHz <> i * j * desiredHz)) ->
      (r = (0, 0) /\
       forall i j, j0 <= j < j0 + Z.of_nat (S n) -> j <= i <= x ->
                   srcHz <> i * j * desiredHz)
      \/ (exists m k, r = (m, k) /\ j0 <= k < j0 + Z.of_nat (S n)
            /\ k <= m <= x /\ srcHz = m * k * desiredHz
            /\ forall i j, j0 <= j < k -> j <= i <= x ->
                           srcHz <> i * j * desiredHz)).
    { intros r Hj [[-> Hno] | (m & k & -> & Hk & Hm & He & Hmin)].
      - left. split; [reflexivity|]. intros i j Hjr Hi.
        destruct (Z.eq_dec j j0) as [->|]; [apply Hj; lia | apply Hno; lia].
      - right. exists m, k. repeat split; try lia.
        intros i j Hjr Hi.
        destruct (Z.eq_dec j j0) as [->|]; [apply Hj; lia | apply Hmin; lia]. }
    destruct (srcHz mod j0 =? 0) eqn:E; cbn [negb].
    + apply Z.eqb_eq in E.
      destruct (srcHz / j0 <? desiredHz) eqn:L.
      * apply Z.ltb_lt in L. left. split; [reflexivity|].
        intros i j Hj Hi Heq.
        pose proof (Z.div_mod srcHz j0 ltac:(lia)) as D. rewrite E in D.
        assert (j0 <= i * j) by nia.
        assert (j0 * desiredHz <= i * j * desiredHz) by nia.
        assert (j0 * (srcHz / j0) < j0 * desiredHz) by nia.
        lia.
      * pose proof (findDivisorExact_x_spec (Z.to_nat (x - j0 + 1))
                      (srcHz / j0) j0) as Hin.
        destruct (bcm283x.findDivisorExact_x (Z.to_nat (x - j0 + 1))
                    (srcHz / j0) desiredHz j0) as [i|].
        -- destruct Hin as (Hr & H1 & H2).
           rewrite (uint64_small i) in H1, H2 by lia.
           right. exists i, j0. repeat split; try lia.
           apply exact_cond_iff; auto; lia.
        -- apply Hskip.
           ++ intros i Hi Heq. apply (Hin i); [lia|].
              rewrite (uint64_small i) by lia.
              apply exact_cond_iff in Heq; [tauto | lia | lia].
           ++ apply IH; lia.
    + apply Z.eqb_neq in E. apply Hskip.
      * intros i Hi Heq. apply E.
        apply exact_cond_iff in Heq; [tauto | lia | lia].
      * apply IH; lia.
Qed.

End ExactSearch.

Lemma exact_pair_mul srcHz desiredHz x y :
  1 <= x -> 1 <= y ->
  (srcHz mod (x * y) = 0 /\ srcHz / (x * y) = desiredHz)
  <-> srcHz = x * y * desiredHz.
Proof.
  intros Hx Hy. assert (0 < x * y) by nia. split.
  - intros [H1 H2].
    pose proof (Z.div_mod srcHz (x * y) ltac:(lia)) as D.
    rewrite H1, H2 in D. lia.
  - intros ->.
    assert (A : x * y * desiredHz = desiredHz * (x * y)) by ring.
    rewrite A, Z.mod_mul, Z.div_mul by lia. auto.
Qed.

(** [findDivisorExact] on well-formed bounds: it does not panic, and it
    returns either [(0, 0)] when no pair is exact, or the exact pair with
    the least [y]. *)
Lemma findDivisorExact_spec srcHz desiredHz x y :
  1 <= desiredHz -> 1 <= y <= x -> x < max_int ->
  (bcm283x.findDivisorExact srcHz desiredHz x y = Ret (0, 0) /\
   forall i j, 1 <= j <= y -> j <= i <= x -> srcHz <> i * j * desiredHz)
  \/ (exists m k, bcm283x.findDivisorExact srcHz desiredHz x y = Ret (m, k)
        /\ 1 <= k <= y /\ k <= m <= x /\ srcHz = m * k * desiredHz
        /\ forall i j, 1 <= j < k -> j <= i <= x ->
                       srcHz <> i * j * desiredHz).
Proof.
  intros Hd Hy Hx. pose proof max_int_lt_two64 as Hm.
  unfold bcm283x.findDivisorExact.
  destruct (x <? y) eqn:L; [apply Z.ltb_lt in L; lia|].
  destruct (findDivisorExact_y_spec srcHz desiredHz (Z.to_nat y) x 1)
    as [[-> Hno] | (m & k & -> & Hk & Hmx & He & Hmin)]; try lia.
  - left. split; [reflexivity|]. intros i j Hj Hi. apply Hno; lia.
  - right. exists m, k. repeat split; try lia. exact Hmin.
Qed.

Lemma findDivisorExact_none srcHz desiredHz x y :
  1 <= desiredHz -> 1 <= y <= x -> x < max_int ->
  (forall i j, 1 <= j <= y -> j <= i <= x -> srcHz <> i * j * desiredHz) ->
  bcm283x.findDivisorExact srcHz desiredHz x y = Ret (0, 0).
Proof.
  intros Hd Hy Hx Hno.
  destruct (findDivisorExact_spec srcHz desiredHz x y Hd Hy Hx)
    as [[E _] | (m & k & _ & Hk & Hm & He & _)]; [exact E|].
  exfalso. apply (Hno m k); auto; lia.
Qed.

Lemma findDivisorExact_indivisible srcHz desiredHz x y :
  1 <= desiredHz -> 1 <= y <= x -> x < max_int ->
  srcHz mod desiredHz <> 0 ->
  bcm283x.findDivisorExact srcHz desiredHz x y = Ret (0, 0).
Proof.
  intros Hd Hy Hx Hnd. apply findDivisorExact_none; auto.
  intros i j _ _ ->. apply Hnd. apply Z.mod_mul. lia.
Qed.

(** ** The oversampling loop *)

(** [k] consecutive rounds that neither break nor find an exact pair. *)
Lemma findDivisor_oversample_skip srcHz desiredHz x y (k : nat) :
  forall (fuel : nat) (i : Z),
  0 <= i -> i + Z.of_nat k < two64 ->
  (forall t, i <= t < i + Z.of_nat k ->
     ((uint64 (t * desiredHz) >? 100000) && (t >? 10)) = false
     /\ bcm283x.findDivisorExact srcHz (uint64 (t * desiredHz)) x y
        = Ret (0, 0)) ->
  bcm283x.findDivisor_oversample (k + fuel) srcHz desiredHz x y i
  = bcm283x.findDivisor_oversample fuel srcHz desiredHz x y (i + Z.of_nat k).
Proof.
  induction k as [|k IH]; intros fuel i Hi Hk Hall.
  - cbn [Nat.add Z.of_nat]. rewrite Z.add_0_r. reflexivity.
  - change (S k + fuel)%nat with (S (k + fuel)).
    cbn [bcm283x.findDivisor_oversample]. cbv zeta.
    destruct (Hall i ltac:(lia)) as [-> ->]. cbn [Z.eqb negb].
    rewrite (uint64_small (i + 1)) by lia.
    rewrite IH; [f_equal; lia | lia | lia |].
    intros t Ht. apply Hall. lia.
Qed.

Lemma findDivisor_oversample_mono srcHz desiredHz x y (fuel : nat) :
  forall (fuel' : nat) (i : Z) r,
  (fuel <= fuel')%nat ->
  bcm283x.findDivisor_oversample fuel srcHz desiredHz x y i = Ret r ->
  bcm283x.findDivisor_oversample fuel' srcHz desiredHz x y i = Ret r.
Proof.
  induction fuel as [|fuel IH]; intros fuel' i r Hle H.
  - discriminate.
  - destruct fuel' as [|fuel']; [lia|].
    cbn [bcm283x.findDivisor_oversample] in *. cbv zeta in *.
    destruct ((uint64 (i * desiredHz) >? 100000) && (i >? 10)); [exact H|].
    destruct (bcm283x.findDivisorExact srcHz (uint64 (i * desiredHz)) x y)
      as [[m n]| |]; try discriminate.
    destruct (negb (m =? 0)); [exact H|].
    apply IH; [lia | exact H].
Qed.

Lemma findDivisor_mono srcHz desiredHz x y (fuel fuel' : nat) r :
  (fuel <= fuel')%nat ->
  bcm283x.findDivisor fuel srcHz desiredHz x y = Ret r ->
  bcm283x.findDivisor fuel' srcHz desiredHz x y = Ret r.
Proof.
  intros Hle. unfold bcm283x.findDivisor.
  destruct (bcm283x.findDivisorExact srcHz desiredHz x y) as [[m n]| |];
    try discriminate.
  destruct (negb (m =? 0)); [auto|].
  destruct (bcm283x.findDivisor_oversample fuel srcHz desiredHz x y 2)
    as [o| |] eqn:E; try discriminate.
  rewrite (findDivisor_oversample_mono _ _ _ _ _ _ _ _ Hle E). auto.
Qed.

(** C1. When some pair [(x, y)] in range with [x >= y] divides [srcHz]
    down to [desiredHz] exactly, [findDivisor] returns an exact pair with
    the requested frequency and a residual error of 0, and no exact pair in
    range has a larger [x].  The bound [xMax < max_int] keeps the [int]
    loop counters from wrapping. *)
Theorem findDivisor_exact_largest_x (fuel : nat) srcHz desiredHz xMax yMax :
  0 <= srcHz < two64 -> 1 <= desiredHz < two64 ->
  1 <= yMax <= xMax -> xMax < max_int ->
  (exists x y, exact_pair srcHz desiredHz xMax yMax x y) ->
  exists m n,
    bcm283x.findDivisor fuel srcHz desiredHz xMax yMax
    = Ret (m, n, desiredHz, 0)
    /\ exact_pair srcHz desiredHz xMax yMax m n
    /\ forall x y, exact_pair srcHz desiredHz xMax yMax x y -> x <= m.
Proof.
  intros Hs Hd Hy Hx (x0 & y0 & Hx0 & Hy0 & Hxy0 & Hex0).
  apply exact_pair_mul in Hex0; try lia.
  destruct (findDivisorExact_spec srcHz desiredHz xMax yMax)
    as [[_ Hno] | (m & k & E & Hk & Hm & He & Hmin)]; try lia.
  - exfalso. apply (Hno x0 y0); auto; lia.
  - exists m, k. unfold bcm283x.findDivisor. rewrite E.
    destruct (m =? 0) eqn:Z0; [apply Z.eqb_eq in Z0; lia|]. cbn [negb].
    split; [reflexivity|]. split.
    + unfold exact_pair. repeat split; try lia;
        apply (exact_pair_mul srcHz desiredHz m k); auto; lia.
    + intros x y (Hx1 & Hy1 & Hxy1 & Hex1).
      apply exact_pair_mul in Hex1; try lia.
      destruct (Z_lt_le_dec y k) as [Hlt|Hge].
      * exfalso. apply (Hmin x y); auto; lia.
      * assert (P : x * y = m * k) by nia. nia.
Qed.

Lemma findDivisor_exact_largest_x_witness :
  exists m n,
    bcm283x.findDivisor 0 192000000 1500 4095 33 = Ret (m, n, 1500, 0)
    /\ exact_pair 192000000 1500 4095 33 m n
    /\ forall x y, exact_pair 192000000 1500 4095 33 x y -> x <= m.
Proof.
  apply (findDivisor_exact_largest_x 0 192000000 1500 4095 33).
  - unfold two64. lia.
  - unfold two64. lia.
  - lia.
  - unfold max_int, two63. lia.
  - exists 4000, 32. unfold exact_pair. repeat split; try lia; reflexivity.
Defined.

(** ** The two documented solver runs *)

Ltac by_compute :=
  vm_compute; repeat split; first [reflexivity | discriminate].

Lemma Z_range_check (P : Z -> bool) (lo : Z) (n : nat) :
  forallb (fun k => P (lo + Z.of_nat k)) (seq 0 n) = true ->
  forall t, lo <= t < lo + Z.of_nat n -> P t = true.
Proof.
  intros H t Ht. rewrite forallb_forall in H.
  specialize (H (Z.to_nat (t - lo))).
  replace (lo + Z.of_nat (Z.to_nat (t - lo))) with t in H by lia.
  apply H. apply in_seq. lia.
Qed.

(** The error-minimizing search for 192 MHz towards 46886 Hz, on the
    scaled values [srcHz * 100] and [desiredHz * 200]. *)
Lemma findDivisor_err_x_4095 :
  bcm283x.findDivisor_err_x (Z.to_nat 4095) (uint64 (192000000 * 100))
    (uint64 (46886 * 200)) 33 1
    {| bcm283x.minErr := 0xFFFFFFFFFFFFFFF; bcm283x.selected := 0;
       bcm283x.best_m := 0; bcm283x.best_n := 0 |}
  = {| bcm283x.minErr := 2379; bcm283x.selected := 9379579;
       bcm283x.best_m := 89; bcm283x.best_n := 23 |}.
Proof.
  vm_cast_no_check
    (eq_refl {| bcm283x.minErr := 2379; bcm283x.selected := 9379579;
                bcm283x.best_m := 89; bcm283x.best_n := 23 |}).
Qed.

(** 192 MHz towards 192000000/4095 Hz: no exact pair at the requested rate
    nor at any of the oversampled rates 2x..10x, so the error-minimizing
    search decides. *)
Lemma eval_findDivisor_at_4095 :
  bcm283x.findDivisor 10 192000000 (192000000 / 4095) 4095 33
  = Ret (89, 23, 93795, 23).
Proof.
  change (192000000 / 4095) with 46886.
  unfold bcm283x.findDivisor.
  rewrite findDivisorExact_indivisible by by_compute.
  cbn [Z.eqb negb].
  change 10%nat with (9 + 1)%nat.
  rewrite findDivisor_oversample_skip.
  - change (2 + Z.of_nat 9) with 11.
    cbn [bcm283x.findDivisor_oversample]. cbv zeta.
    change ((uint64 (11 * 46886) >? 100000) && (11 >? 10)) with true.
    cbv iota. rewrite findDivisor_err_x_4095. reflexivity.
  - lia.
  - by_compute.
  - intros t Ht.
    assert (Hc : t = 2 \/ t = 3 \/ t = 4 \/ t = 5 \/ t = 6 \/ t = 7
                 \/ t = 8 \/ t = 9 \/ t = 10) by lia.
    repeat (destruct Hc as [->|Hc]); try subst t;
      (split; [reflexivity
              | apply findDivisorExact_indivisible; by_compute]).
Qed.

(** C4, as the code has it. With srcHz = 192000000,
    desiredHz = 192000000/4095, xMax = 4095 and yMax = 33 the solver
    returns x = 89, y = 23 and achievedHz = 93795 with a residual error of
    23 (the error-minimizing search compares against twice the requested
    rate in units of 1/100 Hz: 9379579 - 9377200 = 2379). *)
Theorem findDivisor_4095 (fuel : nat) :
  (10 <= fuel)%nat ->
  bcm283x.findDivisor fuel 192000000 (192000000 / 4095) 4095 33
  = Ret (89, 23, 93795, 23).
Proof.
  intros Hle.
  exact (findDivisor_mono _ _ _ _ _ _ _ Hle eval_findDivisor_at_4095).
Qed.

Lemma findDivisor_4095_witness :
  bcm283x.findDivisor 10 192000000 (192000000 / 4095) 4095 33
  = Ret (89, 23, 93795, 23).
Proof.
  apply (findDivisor_4095 10). apply Nat.le_refl.
Defined.

(** C4, as stated, fails: whatever the number of oversampling rounds
    allowed, the call does not return a residual error of 0. *)
Lemma residual_nonzero_at_4095 :
  ~ exists fuel : nat,
      bcm283x.findDivisor fuel 192000000 (192000000 / 4095) 4095 33
      = Ret (89, 23, 93795, 0).
Proof.
  intros [fuel H].
  pose proof (findDivisor_mono _ _ _ _ _ (Nat.max fuel 10) _
                (Nat.le_max_l fuel 10) H) as H1.
  pose proof (findDivisor_mono _ _ _ _ _ (Nat.max fuel 10) _
                (Nat.le_max_r fuel 10) eval_findDivisor_at_4095) as H2.
  rewrite H1 in H2. discriminate.
Qed.

Lemma indivisible_1421_1499 t :
  1421 <= t < 1500 -> 192000000 mod t <> 0.
Proof.
  intros Ht.
  assert (H : negb (192000000 mod t =? 0) = true).
  { apply (Z_range_check (fun t => negb (192000000 mod t =? 0)) 1421 79);
      [by_compute | lia]. }
  apply negb_true_iff, Z.eqb_neq in H. exact H.
Qed.

Lemma findDivisorExact_1500 :
  bcm283x.findDivisorExact 192000000 1500 4095 33 = Ret (4000, 32).
Proof. vm_cast_no_check (eq_refl (Ret (4000, 32))). Qed.

Lemma findDivisorExact_below_1500 t :
  1 <= t < 1500 ->
  bcm283x.findDivisorExact 192000000 t 4095 33 = Ret (0, 0).
Proof.
  intros Ht.
  destruct (Z_le_gt_dec t 1420) as [Hs|Hb].
  - apply findDivisorExact_none; try lia; [by_compute|].
    intros i j Hj Hi Heq.
    assert (i * j <= 135135) by nia.
    assert (i * j * t <= 135135 * 1420) by nia.
    lia.
  - apply findDivisorExact_indivisible; try lia; [by_compute|].
    apply indivisible_1421_1499. lia.
Qed.

(** C5. With srcHz = 192000000, desiredHz = 1, xMax = 4095, yMax = 33 the
    exact search at the requested rate finds nothing, the oversampling loop
    finds the first exact rate at 1500x, and the solver returns
    achievedHz = 1500 with a residual error of 0. *)
Theorem findDivisor_1Hz_oversamples :
  bcm283x.findDivisorExact 192000000 1 4095 33 = Ret (0, 0)
  /\ forall fuel : nat, (1499 <= fuel)%nat ->
       bcm283x.findDivisor_oversample fuel 192000000 1 4095 33 2
       = Ret (Some (4000, 32, 1500))
       /\ bcm283x.findDivisor fuel 192000000 1 4095 33
          = Ret (4000, 32, 1500, 0).
Proof.
  assert (E0 : bcm283x.findDivisorExact 192000000 1 4095 33 = Ret (0, 0))
    by (apply findDivisorExact_below_1500; lia).
  split; [exact E0|].
  assert (E1 : bcm283x.findDivisor_oversample 1499 192000000 1 4095 33 2
               = Ret (Some (4000, 32, 1500))).
  { change 1499%nat with (1498 + 1)%nat.
    rewrite findDivisor_oversample_skip.
    - cbn [bcm283x.findDivisor_oversample]. cbv zeta.
      change (uint64 ((2 + Z.of_nat 1498) * 1)) with 1500.
      rewrite findDivisorExact_1500. reflexivity.
    - lia.
    - by_compute.
    - intros t Ht. rewrite Z.mul_1_r, uint64_small by (unfold two64; lia).
      split.
      + apply andb_false_iff. left. rewrite Z.gtb_ltb. apply Z.ltb_ge. lia.
      + apply findDivisorExact_below_1500. lia. }
  intros fuel Hle.
  pose proof (findDivisor_oversample_mono _ _ _ _ _ _ _ _ Hle E1) as E2.
  split; [exact E2|].
  unfold bcm283x.findDivisor. rewrite E0. cbn [Z.eqb negb].
  rewrite E2. reflexivity.
Qed.

Lemma findDivisor_1Hz_oversamples_witness :
  bcm283x.findDivisor 1499 192000000 1 4095 33 = Ret (4000, 32, 1500, 0).
Proof.
  apply (proj2 findDivisor_1Hz_oversamples 1499%nat). apply Nat.le_refl.
Defined.

(** ** Rasterizer: loops and their invariants *)

Lemma int64_small z : - two63 <= z < two63 -> int64 z = z.
Proof.
  intros H. unfold int64.
  rewrite Z.mod_small; [lia | change two64 with (2 * two63); lia].
Qed.

Lemma for_range_inv {St : Type} (I : nat -> St -> Prop)
    (body : nat -> St -> result St) (n : nat) :
  forall (i : nat) (s : St),
  I i s ->
  (forall k s, (i <= k < i + n)%nat -> I k s ->
     exists s', body k s = Ret s' /\ I (S k) s') ->
  exists s', stream.for_range n i body s = Ret s' /\ I (i + n)%nat s'.
Proof.
  induction n as [|n IH]; intros i s Hi Hstep; cbn [stream.for_range].
  - exists s. rewrite Nat.add_0_r. auto.
  - destruct (Hstep i s ltac:(lia) Hi) as (s1 & -> & H1).
    destruct (IH (S i) s1 H1) as (s2 & E & H2).
    + intros k s' Hk. apply Hstep. lia.
    + exists s2. split; [exact E|].
      replace (i + S n)%nat with (S i + n)%nat by lia. exact H2.
Qed.

Lemma masked_start sel mask buf0 : masked sel mask 0 buf0 buf0.
Proof.
  intros k. cbn [Nat.ltb Nat.leb andb]. destruct (buf0 !! k); reflexivity.
Qed.

Lemma masked_keep sel mask P buf0 buf :
  sel P = false -> masked sel mask P buf0 buf -> masked sel mask (S P) buf0 buf.
Proof.
  intros Hsel H k. rewrite (H k).
  destruct (Nat.eq_dec k P) as [->|Hne].
  - rewrite Hsel, !andb_false_r. reflexivity.
  - replace (k <? S P)%nat with (k <? P)%nat; [reflexivity|].
    destruct (Nat.ltb_spec k P), (Nat.ltb_spec k (S P)); auto; lia.
Qed.

Lemma masked_or sel mask P buf0 buf :
  sel P = true -> (P < length buf0)%nat -> masked sel mask P buf0 buf ->
  exists buf', stream.or_at buf P mask = Ret buf'
               /\ masked sel mask (S P) buf0 buf'.
Proof.
  intros Hsel Hlen H. unfold stream.or_at.
  destruct (lookup_lt_is_Some_2 buf0 P Hlen) as [v0 Hv0].
  pose proof (H P) as HP. rewrite Hv0, Nat.ltb_irrefl in HP.
  cbn [andb fmap option_fmap option_map] in HP. rewrite HP.
  eexists. split; [reflexivity|]. intros k.
  destruct (Nat.eq_dec k P) as [->|Hne].
  - rewrite list_lookup_insert_eq by (apply lookup_lt_Some in HP; exact HP).
    rewrite Hv0, Hsel. rewrite (proj2 (Nat.ltb_lt P (S P))) by lia.
    reflexivity.
  - rewrite list_lookup_insert_ne by auto. rewrite (H k).
    replace (k <? S P)%nat with (k <? P)%nat; [reflexivity|].
    destruct (Nat.ltb_spec k P), (Nat.ltb_spec k (S P)); auto; lia.
Qed.

Lemma masked_frame sel mask P buf0 buf k :
  masked sel mask P buf0 buf -> (P <= k)%nat -> buf !! k = buf0 !! k.
Proof.
  intros H Hk. rewrite (H k).
  rewrite (proj2 (Nat.ltb_ge k P)) by lia. cbn [andb].
  destruct (buf0 !! k); reflexivity.
Qed.

Lemma raster_slot_step lvl setMask clearMask P st0 st :
  (P < length st0.1)%nat -> (P < length st0.2)%nat ->
  rastered lvl setMask clearMask P st0 st ->
  exists st',
    stream.Edges_raster32_slot setMask clearMask (lvl P) P st = Ret st'
    /\ rastered lvl setMask clearMask (S P) st0 st'.
Proof.
  intros Hc Hs [Hclear Hset]. destruct st as [clear set].
  unfold stream.Edges_raster32_slot. destruct (lvl P) eqn:L.
  - destruct (masked_or lvl setMask P st0.2 set L Hs Hset) as (set' & -> & H').
    exists (clear, set'). split; [reflexivity|]. split; [|exact H'].
    apply masked_keep; [cbn; rewrite L; reflexivity | exact Hclear].
  - destruct (masked_or (fun k => negb (lvl k)) clearMask P st0.1 clear)
      as (clear' & -> & H'); auto; [rewrite L; reflexivity|].
    exists (clear', set). split; [reflexivity|]. split; [exact H'|].
    apply masked_keep; [exact L | exact Hset].
Qed.

Lemma land_pow2 a n :
  0 <= n -> Z.land a (2 ^ n) = if Z.testbit a n then 2 ^ n else 0.
Proof.
  intros Hn. apply Z.bits_inj'. intros m Hm.
  rewrite Z.land_spec, Z.pow2_bits_eqb by lia.
  destruct (Z.testbit a n) eqn:T.
  - rewrite Z.pow2_bits_eqb by lia.
    destruct (Z.eqb_spec n m) as [<-|Hne];
      [rewrite T; reflexivity | apply andb_false_r].
  - rewrite Z.bits_0.
    destruct (Z.eqb_spec n m) as [<-|Hne];
      [rewrite T; reflexivity | apply andb_false_r].
Qed.

(** The test [b.Bits[i]&(1<<uint(j)) != 0] reads bit [j] of the byte. *)
Lemma Bits_bit_test byte (j : nat) :
  (j < 8)%nat ->
  negb (Z.land byte (uint8 (Z.shiftl 1 (Z.of_nat j))) =? 0)
  = Z.testbit byte (Z.of_nat j).
Proof.
  intros Hj.
  assert (P : 0 < 2 ^ Z.of_nat j) by (apply Z.pow_pos_nonneg; lia).
  assert (E : uint8 (Z.shiftl 1 (Z.of_nat j)) = 2 ^ Z.of_nat j).
  { rewrite Z.shiftl_1_l. unfold uint8. apply Z.mod_small.
    split; [lia|]. change 256 with (2 ^ 8). apply Z.pow_lt_mono_r; lia. }
  rewrite E, land_pow2 by lia.
  destruct (Z.testbit byte (Z.of_nat j)); [|reflexivity].
  destruct (Z.eqb_spec (2 ^ Z.of_nat j) 0); [lia | reflexivity].
Qed.

Lemma div8_slot (i k : nat) : (k < 8)%nat -> ((8 * i + k) / 8)%nat = i.
Proof. intros H. symmetry. apply Nat.div_unique with k; lia. Qed.

Lemma mod8_slot (i k : nat) : (k < 8)%nat -> ((8 * i + k) mod 8)%nat = k.
Proof. intros H. symmetry. apply Nat.mod_unique with i; lia. Qed.

Section BitsLoops.

Variables (setMask clearMask : Z) (bits : gpio.Bits) (st0 : stream.bufs).

Lemma Bits_raster32_byte_step (i : nat) (st : stream.bufs) :
  (i < length bits)%nat ->
  (8 * i + 8 <= length st0.1)%nat -> (8 * i + 8 <= length st0.2)%nat ->
  rastered (stream_bit bits) setMask clearMask (8 * i) st0 st ->
  exists st',
    stream.Bits_raster32_byte setMask clearMask bits i st = Ret st'
    /\ rastered (stream_bit bits) setMask clearMask (8 * S i) st0 st'.
Proof.
  intros Hi Hc Hs Hinv. unfold stream.Bits_raster32_byte.
  destruct (lookup_lt_is_Some_2 bits i Hi) as [byte Hb]. rewrite Hb.
  destruct (for_range_inv
              (fun j st => rastered (stream_bit bits) setMask clearMask
                             (8 * i + j) st0 st)
              (stream.Bits_raster32_bit setMask clearMask byte i) 8 0 st)
    as (st' & E & H').
  - rewrite Nat.add_0_r. exact Hinv.
  - intros k s Hk Hs'.
    assert (L : stream_bit bits (8 * i + k) = Z.testbit byte (Z.of_nat k)).
    { unfold stream_bit.
      rewrite div8_slot, mod8_slot by lia.
      rewrite Hb. reflexivity. }
    destruct (raster_slot_step (stream_bit bits) setMask clearMask
                (8 * i + k) st0 s) as (s' & Es & Hs''); [lia | lia | auto |].
    exists s'. split.
    + rewrite <- Es. unfold stream.Bits_raster32_bit,
        stream.Edges_raster32_slot.
      rewrite Bits_bit_test, L by lia. reflexivity.
    + replace (8 * i + S k)%nat with (S (8 * i + k)) by lia. exact Hs''.
  - exists st'. split; [exact E|].
    replace (8 * S i)%nat with (8 * i + (0 + 8))%nat by lia. exact H'.
Qed.

Lemma Bits_raster32_loop (m : nat) :
  (m <= length bits)%nat ->
  (8 * m <= length st0.1)%nat -> (8 * m <= length st0.2)%nat ->
  exists st',
    stream.for_range m 0 (stream.Bits_raster32_byte setMask clearMask bits) st0
    = Ret st'
    /\ rastered (stream_bit bits) setMask clearMask (8 * m) st0 st'.
Proof.
  intros Hm Hc Hs.
  destruct (for_range_inv
              (fun i st => rastered (stream_bit bits) setMask clearMask
                             (8 * i) st0 st)
              (stream.Bits_raster32_byte setMask clearMask bits) m 0 st0)
    as (st' & E & H').
  - split; apply masked_start.
  - intros k s Hk Hinv. apply Bits_raster32_byte_step; auto; lia.
  - exists st'. split; [exact E | exact H'].
Qed.

Lemma Edges_raster32_loop (l : gpio.Level) (n : nat) :
  (n <= length st0.1)%nat -> (n <= length st0.2)%nat ->
  exists st',
    stream.for_range n 0 (stream.Edges_raster32_slot setMask clearMask l) st0
    = Ret st'
    /\ rastered (fun _ => l) setMask clearMask n st0 st'.
Proof.
  intros Hc Hs.
  destruct (for_range_inv
              (fun i st => rastered (fun _ => l) setMask clearMask i st0 st)
              (stream.Edges_raster32_slot setMask clearMask l) n 0 st0)
    as (st' & E & H').
  - split; apply masked_start.
  - intros k s Hk Hinv.
    apply (raster_slot_step (fun _ => l)); auto; lia.
  - exists st'. split; [exact E | exact H'].
Qed.

End BitsLoops.

(** [Bits.raster32] at the stream's own resolution, once the capacity
    check has passed: the loops end without a panic and rasterize the
    first [8 * min (len(clear)/8) len(b.Bits)] slots. *)
Lemma Bits_raster32_accepts b clear set setMask clearMask :
  length clear = length set ->
  stream.Bits_Duration b
  <= int64 (stream.Bits_Res b * Z.of_nat (length clear)) ->
  exists st' (m : nat),
    stream.Bits_raster32 b (stream.Bits_Res b) clear set setMask clearMask
    = Ret (None, st')
    /\ m = Nat.min (length clear / 8) (length (stream.Bits_Bits b))
    /\ rastered (stream_bit (stream.Bits_Bits b)) setMask clearMask (8 * m)
         (clear, set) st'.
Proof.
  intros Hlen Hcap. unfold stream.Bits_raster32.
  rewrite Z.eqb_refl. cbn [negb].
  destruct (Z.gtb_spec (stream.Bits_Duration b)
              (int64 (stream.Bits_Res b * Z.of_nat (length clear))));
    [lia|].
  cbv zeta.
  set (m := if (length (stream.Bits_Bits b) <? length clear / 8)%nat
            then length (stream.Bits_Bits b) else (length clear / 8)%nat).
  assert (Hm : m = Nat.min (length clear / 8) (length (stream.Bits_Bits b))).
  { subst m. destruct (Nat.ltb_spec (length (stream.Bits_Bits b))
                         (length clear / 8)); lia. }
  assert (H8 : (8 * (length clear / 8) <= length clear)%nat)
    by (apply Nat.Div0.mul_div_le).
  destruct (Bits_raster32_loop setMask clearMask (stream.Bits_Bits b)
              (clear, set) m) as (st' & -> & H'); cbn [fst snd]; try lia.
  exists st', m. auto.
Qed.

(** ** Rasterizing a bit stream *)

Lemma Raster32_checks_pass (s : stream.Stream) resolution clear set
    setMask clearMask :
  setMask <> 0 -> clearMask <> 0 -> clear <> [] -> set <> [] ->
  length clear = length set ->
  stream.Raster32 s resolution clear set setMask clearMask
  = match s with
    | stream.SBits x =>
        stream.Bits_raster32 x resolution clear set setMask clearMask
    | stream.SEdges x =>
        stream.Edges_raster32 x resolution clear set setMask clearMask
    | stream.SProgram Parts Res Loops =>
        stream.Program_raster32 Parts Res Loops resolution clear set
          setMask clearMask
    | stream.SOther _ _ => Ret (Some "stream: unknown type", (clear, set))
    end.
Proof.
  intros Hs Hc Hcl Hse Hlen. unfold stream.Raster32.
  destruct (Z.eqb_spec setMask 0); [contradiction|].
  destruct (Z.eqb_spec clearMask 0); [contradiction|].
  destruct clear as [|c clear]; [contradiction|].
  destruct set as [|s0 set]; [contradiction|].
  cbn [length Nat.eqb] in *.
  injection Hlen as Hlen. rewrite Hlen, Nat.eqb_refl. reflexivity.
Qed.

(** C2, as the code has it. For a non-empty [b.Bits], non-zero masks and
    zero-initialized buffers of equal length [len >= 8 * len(b.Bits)],
    provided the resolution is non-negative and [b.Res * len] does not
    overflow a [time.Duration], rasterizing at [b.Res] succeeds and reads
    back as the bit pattern of the stream. *)
Theorem Raster32_Bits_readback (b : stream.Bits) (len : nat)
    (setMask clearMask : Z) :
  stream.Bits_Bits b <> [] -> setMask <> 0 -> clearMask <> 0 ->
  (8 * length (stream.Bits_Bits b) <= len)%nat ->
  0 <= stream.Bits_Res b ->
  stream.Bits_Res b * Z.of_nat len <= max_int64 ->
  Bits_readback b (replicate len 0) (replicate len 0) setMask clearMask.
Proof.
  intros Hne Hs Hc Hlen Hres Hovf.
  set (bits := stream.Bits_Bits b) in *.
  assert (Hn : (0 < length bits)%nat)
    by (destruct bits; [contradiction | cbn; lia]).
  unfold Bits_readback.
  rewrite Raster32_checks_pass; auto;
    try (intros E; apply (f_equal length) in E;
         rewrite length_replicate in E; cbn in E; lia).
  destruct (Bits_raster32_accepts b (replicate len 0) (replicate len 0)
              setMask clearMask) as (st' & m & E & Hm & Hclear & Hset).
  - reflexivity.
  - rewrite length_replicate. unfold stream.Bits_Duration. fold bits.
    unfold max_int64 in Hovf.
    assert (stream.Bits_Res b * Z.of_nat (length bits)
            <= stream.Bits_Res b * Z.of_nat len) by nia.
    assert (0 <= stream.Bits_Res b * Z.of_nat (length bits)) by nia.
    rewrite !int64_small by lia. lia.
  - rewrite length_replicate in Hm. fold bits in Hm, Hclear, Hset.
    assert (Hm' : m = length bits).
    { assert (length bits <= len / 8)%nat
        by (apply Nat.div_le_lower_bound; lia). lia. }
    subst m. rewrite Hm' in Hclear, Hset. clear Hm'.
    destruct st' as [clear' set']. cbn [fst snd] in Hclear, Hset.
    exists clear', set'. split; [exact E|].
    intros i Hi. fold bits in Hi |- *.
    pose proof (Hset i) as Hsi. pose proof (Hclear i) as Hci.
    rewrite lookup_replicate_2 in Hsi, Hci by lia.
    rewrite (proj2 (Nat.ltb_lt i (8 * length bits))) in Hsi, Hci by lia.
    cbn [andb fmap option_fmap option_map] in Hsi, Hci.
    eexists _, _. split; [exact Hsi|]. split; [exact Hci|].
    destruct (stream_bit bits i); cbn [negb].
    + rewrite Z.lor_0_l, Z.land_diag, Z.land_0_l.
      split; split; intros; try congruence.
    + rewrite Z.lor_0_l, Z.land_diag, Z.land_0_l.
      split; split; intros; try congruence.
Qed.

Lemma Raster32_Bits_readback_witness :
  Bits_readback {| stream.Bits_Bits := [5]; stream.Bits_Res := 1000 |}
    (replicate 8 0) (replicate 8 0) 1 2.
Proof.
  apply (Raster32_Bits_readback
           {| stream.Bits_Bits := [5]; stream.Bits_Res := 1000 |} 8 1 2);
    cbn [stream.Bits_Bits stream.Bits_Res length];
    first [discriminate | lia | (unfold max_int64, two63; lia)].
Defined.

(** C2, as stated, fails: a stream whose resolution is negative meets
    every condition of C2, and the capacity check rejects it. *)
Lemma negative_Res_rejected :
  let b := {| stream.Bits_Bits := [5]; stream.Bits_Res := -1 |} in
  stream.Bits_Bits b <> [] /\ 1 <> 0 /\ 2 <> 0
  /\ (8 * length (stream.Bits_Bits b) <= 8)%nat
  /\ stream.Raster32 (stream.SBits b) (stream.Bits_Res b)
       (replicate 8 0) (replicate 8 0) 1 2
     = Ret (Some "buffer is too short", (replicate 8 0, replicate 8 0))
  /\ ~ Bits_readback b (replicate 8 0) (replicate 8 0) 1 2.
Proof.
  cbv zeta. repeat split; try discriminate.
  - cbn. lia.
  - intros (clear' & set' & E & _). vm_compute in E. discriminate.
Qed.

(** A [Bits] source accepted by [Raster32] leaves every slot beyond its
    [8 * len(b.Bits)] samples as it was, in both buffers. *)
Lemma Raster32_Bits_frame (b : stream.Bits) resolution clear set
    setMask clearMask clear' set' :
  stream.Raster32 (stream.SBits b) resolution clear set setMask clearMask
  = Ret (None, (clear', set')) ->
  forall k : nat, (8 * length (stream.Bits_Bits b) <= k)%nat ->
    clear' !! k = clear !! k /\ set' !! k = set !! k.
Proof.
  unfold stream.Raster32.
  destruct (setMask =? 0); [discriminate|].
  destruct (clearMask =? 0); [discriminate|].
  destruct (length clear =? 0)%nat; [discriminate|].
  destruct (length set =? 0)%nat; [discriminate|].
  destruct (Nat.eqb_spec (length clear) (length set)) as [Hlen|];
    [|discriminate].
  cbn [negb]. intros E k Hk.
  assert (Hres : resolution = stream.Bits_Res b).
  { unfold stream.Bits_raster32 in E.
    destruct (Z.eqb_spec resolution (stream.Bits_Res b));
      [auto | discriminate]. }
  subst resolution.
  assert (Hcap : stream.Bits_Duration b
                 <= int64 (stream.Bits_Res b * Z.of_nat (length clear))).
  { unfold stream.Bits_raster32 in E. rewrite Z.eqb_refl in E.
    cbn [negb] in E.
    destruct (Z.gtb_spec (stream.Bits_Duration b)
                (int64 (stream.Bits_Res b * Z.of_nat (length clear))));
      [discriminate | lia]. }
  destruct (Bits_raster32_accepts b clear set setMask clearMask Hlen Hcap)
    as (st' & m & E' & Hm & Hclear & Hset).
  rewrite E' in E. injection E as ->. cbn [fst snd] in Hclear, Hset.
  split; eapply masked_frame; eauto; lia.
Qed.

(** The capacity check also rejects a positive resolution whose product
    with the buffer length wraps around. *)
Lemma Raster32_Bits_overflowing_Res :
  stream.Raster32
    (stream.SBits {| stream.Bits_Bits := [5]; stream.Bits_Res := 2 ^ 61 |})
    (2 ^ 61) (replicate 8 0) (replicate 8 0) 1 2
  = Ret (Some "buffer is too short", (replicate 8 0, replicate 8 0)).
Proof. vm_compute. reflexivity. Qed.

(** ** Durations *)

(** C3 at the input of the package's own test, a stream of 100 bytes at
    one second per bit: [Duration] is 100 seconds, the resolution times the
    number of bytes, where the resolution times the number of bits is 800
    seconds. *)
Theorem Bits_Duration_counts_bytes :
  let b := {| stream.Bits_Bits := replicate 100 0;
              stream.Bits_Res := 1000000000 |} in
  stream.Bits_Duration b = 100 * 1000000000
  /\ stream.Bits_Resolution b
     * (8 * Z.of_nat (length (stream.Bits_Bits b))) = 800 * 1000000000
  /\ stream.Bits_Duration b
     <> stream.Bits_Resolution b
        * (8 * Z.of_nat (length (stream.Bits_Bits b))).
Proof. vm_compute. repeat split; discriminate. Qed.

(** What [Bits.Duration] computes in general. *)
Lemma Bits_Duration_eq (b : stream.Bits) :
  stream.Bits_Duration b
  = int64 (stream.Bits_Resolution b
           * Z.of_nat (length (stream.Bits_Bits b))).
Proof. reflexivity. Qed.

(** ** Rasterizing an edge list *)

(** An [Edges] source accepted by [Raster32] has [setMask] OR-ed into
    every slot of [set], whatever its edges, and [clear] is left as it was:
    the local [l] stays [gpio.High]. *)
Lemma Raster32_Edges_always_high (e : stream.Edges) resolution clear set
    setMask clearMask clear' set' :
  stream.Raster32 (stream.SEdges e) resolution clear set setMask clearMask
  = Ret (None, (clear', set')) ->
  clear' = clear /\ set' = (fun v => Z.lor v setMask) <$> set.
Proof.
  unfold stream.Raster32.
  destruct (setMask =? 0); [discriminate|].
  destruct (clearMask =? 0); [discriminate|].
  destruct (length clear =? 0)%nat; [discriminate|].
  destruct (length set =? 0)%nat; [discriminate|].
  destruct (Nat.eqb_spec (length clear) (length set)) as [Hlen|];
    [|discriminate].
  cbn [negb]. unfold stream.Edges_raster32.
  destruct (resolution <? stream.Edges_Res e); [discriminate|].
  destruct (stream.Edges_Duration e
            >? int64 (resolution * Z.of_nat (length clear)));
    [discriminate|].
  cbv zeta.
  destruct (Edges_raster32_loop setMask clearMask (clear, set) gpio.High
              (length clear)) as (st' & -> & Hclear & Hset);
    cbn [fst snd]; try lia.
  intros E. injection E as ->. cbn [fst snd] in Hclear, Hset.
  split; apply list_eq; intros k.
  - rewrite (Hclear k). cbn [gpio.High negb]. rewrite andb_false_r.
    destruct (clear !! k); reflexivity.
  - rewrite (Hset k), list_lookup_fmap.
    destruct (set !! k) as [v|] eqn:Hv; [|reflexivity].
    apply lookup_lt_Some in Hv.
    rewrite (proj2 (Nat.ltb_lt k (length clear))) by lia. reflexivity.
Qed.

(** C6 at an [Edges] value that starts Low (a leading edge of duration 0):
    the documented level is Low during both slots, and the rasterizer ORs
    [setMask] into [set] and leaves [clear] alone. *)
Theorem Raster32_Edges_ignores_start_low :
  let e := {| stream.Edges_Edges := [0; 2]; stream.Edges_Res := 1 |} in
  Edges_level_at (stream.Edges_Edges e) 0 = gpio.Low
  /\ Edges_level_at (stream.Edges_Edges e) 1 = gpio.Low
  /\ stream.Raster32 (stream.SEdges e) 1 [0; 0] [0; 0] 1 2
     = Ret (None, ([0; 0], [1; 1])).
Proof. vm_compute. repeat split. Qed.

(** A resolution finer than [e.Res] is always rejected. *)
Lemma Raster32_Edges_rejects_finer (e : stream.Edges) resolution clear set
    setMask clearMask :
  setMask <> 0 -> clearMask <> 0 -> clear <> [] -> set <> [] ->
  length clear = length set ->
  resolution < stream.Edges_Res e ->
  stream.Raster32 (stream.SEdges e) resolution clear set setMask clearMask
  = Ret (Some "resolution is too coarse", (clear, set)).
Proof.
  intros Hs Hc Hcl Hse Hlen Hres.
  rewrite Raster32_checks_pass by auto. unfold stream.Edges_raster32.
  rewrite (proj2 (Z.ltb_lt _ _) Hres). reflexivity.
Qed.

(** C7 at an [Edges] value of resolution 2: the finer target resolution 1
    is rejected as "too coarse", and the coarser target resolution 3 is
    accepted. *)
Theorem Raster32_Edges_resolution_check_inverted :
  let e := {| stream.Edges_Edges := [1]; stream.Edges_Res := 2 |} in
  stream.Raster32 (stream.SEdges e) 1 [0] [0] 1 1
  = Ret (Some "resolution is too coarse", ([0], [0]))
  /\ stream.Raster32 (stream.SEdges e) 3 [0] [0] 1 1
     = Ret (None, ([0], [1])).
Proof. vm_compute. repeat split. Qed.

(** C8 at an [Edges] value of duration 1 rasterized at resolution 1 into
    buffers of two slots: the source covers slot 0 only, and slot 1 of
    [set] goes from 0 to 1. *)
Theorem Raster32_Edges_touches_trailing_slots :
  let e := {| stream.Edges_Edges := [1]; stream.Edges_Res := 1 |} in
  stream.Edges_Duration e = 1
  /\ stream.Raster32 (stream.SEdges e) 1 [0; 0] [0; 0] 1 1
     = Ret (None, ([0; 0], [1; 1]))
  /\ [1; 1] !! 1%nat <> [0; 0] !! 1%nat.
Proof. vm_compute. repeat split. discriminate. Qed.

(** ** Rasterizing a program *)

(** C10. For every [Program], whatever its parts, resolution and loop
    count, and any masks and buffers that pass the checks of [Raster32],
    the call returns the error "implement me" and both buffers are as they
    were. *)
Theorem Raster32_Program_unimplemented (Parts : list stream.Stream)
    (Res Loops resolution : Z) (clear set : list Z) (setMask clearMask : Z) :
  setMask <> 0 -> clearMask <> 0 -> clear <> [] -> set <> [] ->
  length clear = length set ->
  stream.Raster32 (stream.SProgram Parts Res Loops) resolution clear set
    setMask clearMask
  = Ret (Some "implement me", (clear, set)).
Proof.
  intros Hs Hc Hcl Hse Hlen.
  rewrite Raster32_checks_pass by auto. reflexivity.
Qed.

Lemma Raster32_Program_unimplemented_witness :
  stream.Raster32
    (stream.SProgram
       [stream.SBits {| stream.Bits_Bits := [5]; stream.Bits_Res := 1 |}]
       1 3)
    1 (replicate 8 0) (replicate 8 7) 1 2
  = Ret (Some "implement me", (replicate 8 0, replicate 8 7)).
Proof.
  apply (Raster32_Program_unimplemented
           [stream.SBits {| stream.Bits_Bits := [5]; stream.Bits_Res := 1 |}]
           1 3 1 (replicate 8 0) (replicate 8 7) 1 2);
    first [discriminate | reflexivity].
Defined.

(** ** The NRZ encoder *)

Lemma expandNRZ_check_all b : 0 <= b < 256 -> expandNRZ_check b = true.
Proof.
  intros Hb. apply (Z_range_check expandNRZ_check 0 256); [|lia].
  vm_compute. reflexivity.
Qed.

(** C9. For every 8-bit symbol [b], [expandNRZ b] is a 24-bit pattern in
    which input bit [k] occupies output bits [3k+2], [3k+1], [3k] with the
    values 1, bit [k] of [b], 0; [expandNRZ 0xFF] is 0xDB6DB6 and
    [expandNRZ 0x00] is 0x924924. *)
Theorem expandNRZ_pattern (b : Z) :
  0 <= b < 256 ->
  0 <= sk6812rgbw.expandNRZ b < 2 ^ 24
  /\ (forall k, 0 <= k < 8 ->
        Z.testbit (sk6812rgbw.expandNRZ b) (3 * k + 2) = true
        /\ Z.testbit (sk6812rgbw.expandNRZ b) (3 * k + 1) = Z.testbit b k
        /\ Z.testbit (sk6812rgbw.expandNRZ b) (3 * k) = false)
  /\ sk6812rgbw.expandNRZ 0xFF = 0xDB6DB6
  /\ sk6812rgbw.expandNRZ 0x00 = 0x924924.
Proof.
  intros Hb. pose proof (expandNRZ_check_all b Hb) as H.
  unfold expandNRZ_check in H. cbv zeta in H.
  apply andb_true_iff in H as [H Hall].
  apply andb_true_iff in H as [H0 H24].
  apply Z.leb_le in H0. apply Z.ltb_lt in H24.
  split; [lia|]. split; [|split; reflexivity].
  intros k Hk. rewrite forallb_forall in Hall.
  specialize (Hall (Z.to_nat k)). rewrite Z2Nat.id in Hall by lia.
  assert (Hin : In (Z.to_nat k) (seq 0 8)) by (apply in_seq; lia).
  specialize (Hall Hin). unfold expandNRZ_group in Hall.
  apply andb_true_iff in Hall as [Hall H3].
  apply andb_true_iff in Hall as [H1 H2].
  apply Bool.eqb_prop in H2. apply negb_true_iff in H3. auto.
Qed.

Lemma expandNRZ_pattern_witness :
  0 <= sk6812rgbw.expandNRZ 0xA5 < 2 ^ 24
  /\ (forall k, 0 <= k < 8 ->
        Z.testbit (sk6812rgbw.expandNRZ 0xA5) (3 * k + 2) = true
        /\ Z.testbit (sk6812rgbw.expandNRZ 0xA5) (3 * k + 1)
           = Z.testbit 0xA5 k
        /\ Z.testbit (sk6812rgbw.expandNRZ 0xA5) (3 * k) = false)
  /\ sk6812rgbw.expandNRZ 0xFF = 0xDB6DB6
  /\ sk6812rgbw.expandNRZ 0x00 = 0x924924.
Proof.
  apply (expandNRZ_pattern 0xA5). lia.
Defined.

(** * Further properties of the solver *)

(** [findDivisorExact] on well-formed bounds returns [(0, 0)] exactly when
    no pair is exact; otherwise it returns an exact pair whose [y] is the
    least and whose [x] is the largest among the exact pairs. *)
Theorem findDivisorExact_correct srcHz desiredHz xMax yMax :
  1 <= desiredHz -> 1 <= yMax <= xMax -> xMax < max_int ->
  exists m n,
    bcm283x.findDivisorExact srcHz desiredHz xMax yMax = Ret (m, n)
    /\ ((m = 0 /\ n = 0
         /\ forall x y, ~ exact_pair srcHz desiredHz xMax yMax x y)
        \/ (exact_pair srcHz desiredHz xMax yMax m n
            /\ forall x y, exact_pair srcHz desiredHz xMax yMax x y ->
                           n <= y /\ x <= m)).
Proof.
  intros Hd Hy Hx.
  destruct (findDivisorExact_spec srcHz desiredHz xMax yMax Hd Hy Hx)
    as [[E Hno] | (m & k & E & Hk & Hm & He & Hmin)].
  - exists 0, 0. split; [exact E|]. left. repeat split.
    intros x y (Hx1 & Hy1 & Hxy & Hex).
    apply exact_pair_mul in Hex; try lia. apply (Hno x y); auto; lia.
  - exists m, k. split; [exact E|]. right. split.
    + unfold exact_pair. repeat split; try lia;
        apply (exact_pair_mul srcHz desiredHz m k); auto; lia.
    + intros x y (Hx1 & Hy1 & Hxy & Hex).
      apply exact_pair_mul in Hex; try lia.
      destruct (Z_lt_le_dec y k) as [Hlt|Hge].
      * exfalso. apply (Hmin x y); auto; lia.
      * split; [lia|]. assert (P : x * y = m * k) by nia. nia.
Qed.

Lemma findDivisorExact_correct_witness :
  exists m n,
    bcm283x.findDivisorExact 192000000 (216 * 7) 4095 33 = Ret (m, n)
    /\ ((m = 0 /\ n = 0
         /\ forall x y, ~ exact_pair 192000000 (216 * 7) 4095 33 x y)
        \/ (exact_pair 192000000 (216 * 7) 4095 33 m n
            /\ forall x y, exact_pair 192000000 (216 * 7) 4095 33 x y ->
                           n <= y /\ x <= m)).
Proof.
  apply (findDivisorExact_correct 192000000 (216 * 7) 4095 33);
    [lia | lia | reflexivity].
Defined.

(** ** The oversampling loop in general *)

Section Oversample.

Variables srcHz desiredHz x y : Z.
Hypothesis Hdes : 1 <= desiredHz < 2 ^ 56.
Hypothesis Hy : 1 <= y <= x.
Hypothesis Hx : x < max_int.

Lemma in_cap_uint64 i :
  in_cap desiredHz i -> uint64 (i * desiredHz) = i * desiredHz.
Proof using Hdes.
  intros [Hi Hc]. apply uint64_small. unfold two64.
  assert (2 ^ 56 = 72057594037927936) by reflexivity. nia.
Qed.

Lemma in_cap_next i :
  in_cap desiredHz i ->
  ((i * desiredHz >? 100000) && (i >? 10)) = false ->
  in_cap desiredHz (i + 1) /\ uint64 (i + 1) = i + 1.
Proof using Hdes.
  intros [Hi Hc] Hb.
  assert (Hle : i * desiredHz <= 100000 \/ i <= 10).
  { apply andb_false_iff in Hb as [Hb|Hb];
      rewrite Z.gtb_ltb in Hb; apply Z.ltb_ge in Hb; auto. }
  assert (Hi' : i <= i * desiredHz) by nia.
  assert (2 ^ 56 = 72057594037927936) by reflexivity.
  split.
  - split; [lia|]. destruct Hle; nia.
  - apply uint64_small. unfold two64. destruct Hle; nia.
Qed.

(** Whatever the loop returns is an exact pair for a multiple
    [k * desiredHz] of the requested frequency, with [k] at most 10 or the
    multiple at most 100 kHz; the loop does not panic. *)
Lemma findDivisor_oversample_sound (fuel : nat) :
  forall i, in_cap desiredHz i ->
  match bcm283x.findDivisor_oversample fuel srcHz desiredHz x y i with
  | Ret (Some (m, n, d)) =>
      exists k, i <= k /\ d = k * desiredHz /\ (k <= 10 \/ d <= 100000)
                /\ 1 <= n <= y /\ n <= m <= x /\ srcHz = m * n * d
  | Ret None => True
  | Panic => False
  | OutOfFuel => True
  end.
Proof using Hdes Hy Hx.
  induction fuel as [|fuel IH]; intros i Hi;
    cbn [bcm283x.findDivisor_oversample]; [exact I|].
  cbv zeta. rewrite (in_cap_uint64 i Hi).
  destruct ((i * desiredHz >? 100000) && (i >? 10)) eqn:Hb; [exact I|].
  destruct (in_cap_next i Hi Hb) as [Hn Hu].
  assert (Hd : 1 <= i * desiredHz) by (destruct Hi; nia).
  destruct (findDivisorExact_spec srcHz (i * desiredHz) x y Hd Hy Hx)
    as [[-> _] | (m & k & -> & Hk & Hm & He & _)].
  - cbn [Z.eqb negb]. rewrite Hu. specialize (IH (i + 1) Hn).
    destruct (bcm283x.findDivisor_oversample fuel srcHz desiredHz x y (i + 1))
      as [[[[m' n'] d']|]| |]; auto.
    destruct IH as (k & Hk & Hrest). exists k. split; [lia | exact Hrest].
  - destruct (Z.eqb_spec m 0) as [->|Hne]; [lia|]. cbn [negb].
    exists i. repeat split; lia.
Qed.

(** The loop exits before the counter passes [oversample_rounds]. *)
Lemma findDivisor_oversample_terminates (fuel : nat) :
  forall i, in_cap desiredHz i ->
  i <= Z.of_nat (oversample_rounds desiredHz) ->
  Z.of_nat (oversample_rounds desiredHz) - i < Z.of_nat fuel ->
  exists r, bcm283x.findDivisor_oversample fuel srcHz desiredHz x y i = Ret r.
Proof using Hdes Hy Hx.
  induction fuel as [|fuel IH]; intros i Hi Hle Hf; [lia|].
  cbn [bcm283x.findDivisor_oversample]. cbv zeta.
  rewrite (in_cap_uint64 i Hi).
  destruct ((i * desiredHz >? 100000) && (i >? 10)) eqn:Hb; [eauto|].
  destruct (in_cap_next i Hi Hb) as [Hn Hu].
  assert (Hlt : i < Z.of_nat (oversample_rounds desiredHz)).
  { destruct (Z.eq_dec i (Z.of_nat (oversample_rounds desiredHz)))
      as [E|]; [exfalso | lia].
    unfold oversample_rounds in E. rewrite Z2Nat.id in E by lia.
    assert (D : 100000 < (100000 / desiredHz + 1) * desiredHz).
    { pose proof (Z.div_mod 100000 desiredHz ltac:(lia)).
      pose proof (Z.mod_pos_bound 100000 desiredHz ltac:(lia)). nia. }
    assert (100000 < i * desiredHz) by nia.
    apply andb_false_iff in Hb as [Hb|Hb];
      rewrite Z.gtb_ltb in Hb; apply Z.ltb_ge in Hb; lia. }
  assert (Hd : 1 <= i * desiredHz) by (destruct Hi; nia).
  destruct (findDivisorExact_spec srcHz (i * desiredHz) x y Hd Hy Hx)
    as [[-> _] | (m & k & -> & Hk & Hm & He & _)].
  - cbn [Z.eqb negb]. rewrite Hu. apply IH; [exact Hn | lia | lia].
  - destruct (negb (m =? 0)); [eauto|].
    rewrite Hu. apply IH; [exact Hn | lia | lia].
Qed.

Lemma in_cap_2 : in_cap desiredHz 2.
Proof using Hdes. split; lia. Qed.

End Oversample.

(** ** The error-minimizing search in general *)

Lemma uint64_nonneg z : 0 <= uint64 z < two64.
Proof. unfold uint64. apply Z.mod_pos_bound. reflexivity. Qed.

Section ErrSearch.

Variables srcHz desiredHz y : Z.

Lemma err_inv_minErr_le i0 j0 b :
  err_inv srcHz desiredHz y i0 j0 b -> bcm283x.minErr b <= 0xFFFFFFFFFFFFFFF.
Proof.
  intros [_ [-> | (_ & _ & _ & _ & _ & H)]]; [cbn; lia | lia].
Qed.

Lemma findDivisor_err_y_inv (n : nat) :
  forall i0 j0 b,
  1 <= i0 < two64 -> 1 <= j0 -> j0 + Z.of_nat n <= two64 ->
  j0 + Z.of_nat n - 1 <= Z.min i0 y ->
  err_inv srcHz desiredHz y i0 j0 b ->
  err_inv srcHz desiredHz y i0 (j0 + Z.of_nat n)
    (bcm283x.findDivisor_err_y n srcHz desiredHz i0 j0 b).
Proof.
  induction n as [|n IH]; intros i0 j0 b Hi Hj Hn Hmax Hinv;
    cbn [bcm283x.findDivisor_err_y].
  - replace (j0 + Z.of_nat 0) with j0 by lia. exact Hinv.
  - cbv zeta. rewrite (uint64_small i0), (uint64_small j0) by lia.
    fold (fallback_err srcHz desiredHz i0 j0).
    pose proof (uint64_nonneg (srcHz / i0 / j0 - desiredHz)) as Hnn.
    fold (fallback_err srcHz desiredHz i0 j0) in Hnn.
    destruct (Z.ltb_spec (fallback_err srcHz desiredHz i0 j0) 0); [lia|].
    replace (j0 + Z.of_nat (S n)) with ((j0 + 1) + Z.of_nat n) by lia.
    apply IH; try lia.
    pose proof (err_inv_minErr_le _ _ _ Hinv) as Hcap.
    destruct Hinv as [Hmin Hval].
    destruct (Z.gtb_spec (bcm283x.minErr b)
                (fallback_err srcHz desiredHz i0 j0)) as [Hgt|Hle].
    + split; cbn [bcm283x.minErr bcm283x.selected bcm283x.best_m
                  bcm283x.best_n].
      * intros i j Hi1 Hj1 [Hv|[-> Hv]].
        -- specialize (Hmin i j Hi1 Hj1 (or_introl Hv)). lia.
        -- destruct (Z.eq_dec j j0) as [->|Hne]; [lia|].
           assert (Hv' : visited i0 j i0 j0) by (right; lia).
           specialize (Hmin i0 j Hi1 Hj1 Hv'). lia.
      * right. repeat split; try lia. right. lia.
    + split.
      * intros i j Hi1 Hj1 [Hv|[-> Hv]].
        -- apply Hmin; auto. left. exact Hv.
        -- destruct (Z.eq_dec j j0) as [->|Hne]; [lia|].
           apply Hmin; auto. right. lia.
      * destruct Hval as [->|(H1 & H2 & Hv & H3 & H4 & H5)]; [left; auto|].
        right. repeat split; try lia.
        destruct Hv as [Hv|[-> Hv]]; [left; exact Hv | right; lia].
Qed.

Lemma findDivisor_err_x_inv (n : nat) :
  forall i0 b,
  1 <= i0 -> i0 + Z.of_nat n <= two64 -> y < two64 ->
  err_inv srcHz desiredHz y i0 1 b ->
  err_inv srcHz desiredHz y (i0 + Z.of_nat n) 1
    (bcm283x.findDivisor_err_x n srcHz desiredHz y i0 b).
Proof.
  induction n as [|n IH]; intros i0 b Hi Hn Hy Hinv;
    cbn [bcm283x.findDivisor_err_x].
  - replace (i0 + Z.of_nat 0) with i0 by lia. exact Hinv.
  - cbv zeta.
    assert (Hm : (if y >? i0 then i0 else y) = Z.min i0 y)
      by (destruct (Z.gtb_spec y i0); lia).
    rewrite Hm.
    replace (i0 + Z.of_nat (S n)) with ((i0 + 1) + Z.of_nat n) by lia.
    apply IH; try lia.
    assert (H : err_inv srcHz desiredHz y i0 (1 + Z.max 0 (Z.min i0 y))
                  (bcm283x.findDivisor_err_y (Z.to_nat (Z.min i0 y))
                     srcHz desiredHz i0 1 b)).
    { destruct (Z_le_gt_dec (Z.min i0 y) 0) as [Hle|Hgt].
      - replace (Z.to_nat (Z.min i0 y)) with 0%nat by lia.
        replace (1 + Z.max 0 (Z.min i0 y)) with 1 by lia. exact Hinv.
      - replace (1 + Z.max 0 (Z.min i0 y))
          with (1 + Z.of_nat (Z.to_nat (Z.min i0 y))) by lia.
        apply findDivisor_err_y_inv; try lia. exact Hinv. }
    destruct H as [Hmin Hval].
    split.
    + intros i j Hi1 Hj1 [Hv|[-> Hv]]; [|lia].
      apply Hmin; auto.
      destruct (Z.eq_dec i i0) as [->|Hne]; [right; lia | left; lia].
    + destruct Hval as [->|(H1 & H2 & Hv & H3 & H4 & H5)]; [left; auto|].
      right. repeat split; try lia. left.
      destruct Hv as [Hv|[-> Hv]]; lia.
Qed.

Lemma err_inv_start : err_inv srcHz desiredHz y 1 1 best0.
Proof.
  split; [|left; reflexivity].
  intros i j Hi Hj [Hv|[-> Hv]]; lia.
Qed.

End ErrSearch.

Lemma findDivisor_err_x_spec srcHz desiredHz xMax yMax :
  0 <= xMax < max_int -> yMax < max_int ->
  let b := bcm283x.findDivisor_err_x (Z.to_nat xMax) srcHz desiredHz yMax 1
             best0 in
  (forall x y, 1 <= x <= xMax -> 1 <= y <= Z.min x yMax ->
     bcm283x.minErr b <= fallback_err srcHz desiredHz x y)
  /\ (b = best0
      \/ (1 <= bcm283x.best_m b <= xMax
          /\ 1 <= bcm283x.best_n b <= Z.min (bcm283x.best_m b) yMax
          /\ bcm283x.selected b
             = srcHz / bcm283x.best_m b / bcm283x.best_n b
          /\ bcm283x.minErr b
             = fallback_err srcHz desiredHz
                 (bcm283x.best_m b) (bcm283x.best_n b)
          /\ bcm283x.minErr b < 0xFFFFFFFFFFFFFFF)).
Proof.
  intros Hx Hy. cbv zeta. pose proof max_int_lt_two64 as Hm.
  destruct (findDivisor_err_x_inv srcHz desiredHz yMax (Z.to_nat xMax) 1
              best0) as [Hmin Hval]; try lia; [apply err_inv_start|].
  split.
  - intros x y Hx1 Hy1. apply Hmin; try lia. left. lia.
  - destruct Hval as [->|(H1 & H2 & Hv & H3 & H4 & H5)]; [left; auto|].
    right. repeat split; try lia. destruct Hv as [Hv|[Hv Hv']]; lia.
Qed.

(** The error-minimizing search over [x] in [1, xMax] and [y] in
    [1, min x yMax] ends with the least error of all these pairs in
    [minErr]; its locals are either untouched, when no pair has an error
    below the initial [minErr], or hold a pair in range together with its
    frequency and its error. *)
Theorem findDivisor_err_x_minimal srcHz desiredHz xMax yMax :
  0 <= xMax < max_int -> yMax < max_int ->
  let b := bcm283x.findDivisor_err_x (Z.to_nat xMax) srcHz desiredHz yMax 1
             best0 in
  (forall x y, 1 <= x <= xMax -> 1 <= y <= Z.min x yMax ->
     bcm283x.minErr b <= fallback_err srcHz desiredHz x y)
  /\ (b = best0
      \/ (1 <= bcm283x.best_m b <= xMax
          /\ 1 <= bcm283x.best_n b <= Z.min (bcm283x.best_m b) yMax
          /\ bcm283x.selected b
             = srcHz / bcm283x.best_m b / bcm283x.best_n b
          /\ bcm283x.minErr b
             = fallback_err srcHz desiredHz
                 (bcm283x.best_m b) (bcm283x.best_n b)
          /\ bcm283x.minErr b < 0xFFFFFFFFFFFFFFF)).
Proof. exact (findDivisor_err_x_spec srcHz desiredHz xMax yMax). Qed.

Lemma findDivisor_err_x_minimal_witness :
  let b := bcm283x.findDivisor_err_x (Z.to_nat 12) 1000 300 4 1 best0 in
  (forall x y, 1 <= x <= 12 -> 1 <= y <= Z.min x 4 ->
     bcm283x.minErr b <= fallback_err 1000 300 x y)
  /\ (b = best0
      \/ (1 <= bcm283x.best_m b <= 12
          /\ 1 <= bcm283x.best_n b <= Z.min (bcm283x.best_m b) 4
          /\ bcm283x.selected b
             = 1000 / bcm283x.best_m b / bcm283x.best_n b
          /\ bcm283x.minErr b
             = fallback_err 1000 300
                 (bcm283x.best_m b) (bcm283x.best_n b)
          /\ bcm283x.minErr b < 0xFFFFFFFFFFFFFFF)).
Proof.
  apply (findDivisor_err_x_minimal 1000 300 12 4);
    [split; [lia | reflexivity] | reflexivity].
Defined.

(** ** [findDivisor] as a whole *)

Section FindDivisor.

Variables srcHz desiredHz x y : Z.
Hypothesis Hsrc : 0 <= srcHz.
Hypothesis Hsrc100 : srcHz * 100 < two64.
Hypothesis Hdes : 1 <= desiredHz < 2 ^ 56.
Hypothesis Hy : 1 <= y <= x.
Hypothesis Hx : x < max_int.

Lemma scaled_div m n :
  1 <= m -> 1 <= n -> srcHz * 100 / m / n / 100 = srcHz / (m * n).
Proof.
  intros Hm Hn. assert (0 < m * n) by nia.
  rewrite (Z.div_div (srcHz * 100) m n) by lia.
  rewrite (Z.div_div (srcHz * 100) (m * n) 100) by lia.
  rewrite Z.div_mul_cancel_r by lia. reflexivity.
Qed.

(** The four ways [findDivisor] returns. *)
Lemma findDivisor_cases (fuel : nat) m n hz err :
  bcm283x.findDivisor fuel srcHz desiredHz x y = Ret (m, n, hz, err) ->
  (* exact, or exact at an oversampled rate *)
  (exists k, 1 <= k /\ hz = k * desiredHz /\ err = 0
             /\ 1 <= n <= y /\ n <= m <= x /\ srcHz = m * n * hz)
  (* the pair of least error *)
  \/ (1 <= n <= y /\ n <= m <= x
      /\ desiredHz * 200 <= srcHz * 100 / m / n
      /\ hz = srcHz / (m * n)
      /\ err = (srcHz * 100 / m / n - desiredHz * 200) / 100)
  (* no pair reaches the doubled target *)
  \/ (m = 0 /\ n = 0 /\ hz = 0 /\ err = 0xFFFFFFFFFFFFFFF / 100
      /\ forall i j, 1 <= i <= x -> 1 <= j <= Z.min i y ->
           0xFFFFFFFFFFFFFFF <= fallback_err (srcHz * 100) (desiredHz * 200)
                                  i j).
Proof using Hsrc Hsrc100 Hdes Hy Hx.
  assert (P56 : 2 ^ 56 = 72057594037927936) by reflexivity.
  unfold bcm283x.findDivisor.
  destruct (findDivisorExact_spec srcHz desiredHz x y ltac:(lia) Hy Hx)
    as [[-> _] | (m0 & k0 & -> & Hk & Hm & He & _)].
  - cbn [Z.eqb negb].
    pose proof (findDivisor_oversample_sound srcHz desiredHz x y Hdes Hy Hx
                  fuel 2 (in_cap_2 desiredHz Hdes)) as Hos.
    destruct (bcm283x.findDivisor_oversample fuel srcHz desiredHz x y 2)
      as [[[[m1 n1] d1]|]| |]; try discriminate.
    + intros E. injection E as <- <- <- <-.
      destruct Hos as (k & Hk2 & -> & Hcap & Hn & Hm & He).
      left. exists k. repeat split; try lia; exact He.
    + rewrite (uint64_small (desiredHz * 200)) by (unfold two64; lia).
      rewrite (uint64_small (srcHz * 100)) by lia.
      change {| bcm283x.minErr := 0xFFFFFFFFFFFFFFF; bcm283x.selected := 0;
                bcm283x.best_m := 0; bcm283x.best_n := 0 |} with best0.
      destruct (findDivisor_err_x_spec (srcHz * 100) (desiredHz * 200) x y)
        as [Hmin Hval]; [lia | lia |].
      destruct Hval as [Eb|(H1 & H2 & H3 & H4 & H5)].
      * rewrite Eb in *. cbn [bcm283x.minErr bcm283x.selected
                               bcm283x.best_m bcm283x.best_n] in *.
        intros E. injection E as <- <- <- <-.
        right. right. repeat split. exact Hmin.
      * intros E. injection E as <- <- <- <-.
        set (b := bcm283x.findDivisor_err_x (Z.to_nat x) (srcHz * 100)
                    (desiredHz * 200) y 1 best0) in *.
        set (mm := bcm283x.best_m b) in *. set (nn := bcm283x.best_n b) in *.
        assert (Hq : 0 <= srcHz * 100 / mm / nn)
          by (apply Z.div_pos; [apply Z.div_pos|]; lia).
        assert (Hge : desiredHz * 200 <= srcHz * 100 / mm / nn).
        { destruct (Z_le_gt_dec (desiredHz * 200) (srcHz * 100 / mm / nn))
            as [|Hlt]; [assumption | exfalso].
          unfold fallback_err, uint64 in H4.
          replace (srcHz * 100 / mm / nn - desiredHz * 200)
            with ((srcHz * 100 / mm / nn - desiredHz * 200 + two64)
                  + (-1) * two64) in H4 by ring.
          rewrite Z.mod_add in H4 by (unfold two64; lia).
          rewrite Z.mod_small in H4 by (unfold two64 in *; lia).
          unfold two64 in H4. lia. }
        right. left. rewrite H3. repeat split; try lia.
        -- apply scaled_div; lia.
        -- rewrite H4. unfold fallback_err.
           rewrite uint64_small; [reflexivity|].
           split; [lia|].
           assert (srcHz * 100 / mm / nn <= srcHz * 100).
           { rewrite Z.div_div by lia.
             assert (1 <= mm * nn) by nia.
             apply Z.div_le_upper_bound; [lia|].
             assert (1 * (srcHz * 100) <= mm * nn * (srcHz * 100))
               by (apply Z.mul_le_mono_nonneg_r; lia).
             lia. }
           lia.
  - destruct (Z.eqb_spec m0 0) as [->|Hne]; [lia|]. cbn [negb].
    intros E. injection E as <- <- <- <-.
    left. exists 1. repeat split; lia.
Qed.

Lemma findDivisor_returns (fuel : nat) :
  (oversample_rounds desiredHz <= fuel)%nat ->
  exists r, bcm283x.findDivisor fuel srcHz desiredHz x y = Ret r.
Proof using Hdes Hy Hx.
  intros Hf. unfold bcm283x.findDivisor.
  destruct (findDivisorExact_spec srcHz desiredHz x y ltac:(lia) Hy Hx)
    as [[-> _] | (m0 & k0 & -> & _)].
  - cbn [Z.eqb negb].
    destruct (findDivisor_oversample_terminates srcHz desiredHz x y Hdes Hy
                Hx fuel 2 (in_cap_2 desiredHz Hdes)) as [r ->].
    + unfold oversample_rounds. lia.
    + unfold oversample_rounds in *. lia.
    + destruct r as [[[m n] d]|]; eauto.
  - destruct (negb (m0 =? 0)); [eauto|].
    destruct (findDivisor_oversample_terminates srcHz desiredHz x y Hdes Hy
                Hx fuel 2 (in_cap_2 desiredHz Hdes)) as [r ->].
    + unfold oversample_rounds. lia.
    + unfold oversample_rounds in *. lia.
    + destruct r as [[[m n] d]|]; eauto.
Qed.

End FindDivisor.

(** Summary of [findDivisor_cases] for callers: the dividers [m], [n] are
    in range and [hz] is the frequency they produce, or nothing was
    found. *)
Lemma findDivisor_good_or_none (fuel : nat) srcHz desiredHz x y m n hz err :
  0 <= srcHz -> srcHz * 100 < two64 -> 1 <= desiredHz < 2 ^ 56 ->
  1 <= y <= x -> x < max_int ->
  bcm283x.findDivisor fuel srcHz desiredHz x y = Ret (m, n, hz, err) ->
  (1 <= n <= y /\ n <= m <= x /\ hz = srcHz / (m * n) /\ desiredHz <= hz
   /\ 0 <= err <= srcHz)
  \/ (m = 0 /\ n = 0 /\ hz = 0 /\ err = 0xFFFFFFFFFFFFFFF / 100
      /\ forall i j, 1 <= i <= x -> 1 <= j <= Z.min i y ->
           0xFFFFFFFFFFFFFFF <= fallback_err (srcHz * 100) (desiredHz * 200)
                                  i j).
Proof.
  intros Hs Hs100 Hd Hy Hx E.
  destruct (findDivisor_cases srcHz desiredHz x y Hs Hs100 Hd Hy Hx
              fuel m n hz err E)
    as [(k & Hk & -> & -> & Hn & Hm & He)
       | [(Hn & Hm & Hge & -> & ->) | H]]; [left | left | right; exact H].
  - assert (0 < m * n) by nia.
    repeat split; try lia; [|nia].
    rewrite He at 1.
    replace (m * n * (k * desiredHz)) with (k * desiredHz * (m * n)) by ring.
    rewrite Z.div_mul by lia. reflexivity.
  - assert (0 < m * n) by nia.
    assert (Hq : srcHz * 100 / m / n / 100 = srcHz / (m * n))
      by (apply scaled_div; lia).
    assert (Hub : srcHz * 100 / m / n <= srcHz * 100).
    { rewrite Z.div_div by lia. apply Z.div_le_upper_bound; [lia|].
      assert (1 * (srcHz * 100) <= m * n * (srcHz * 100))
        by (apply Z.mul_le_mono_nonneg_r; lia).
      lia. }
    repeat split; try lia.
    + rewrite <- Hq. apply Z.div_le_lower_bound; lia.
    + apply Z.div_pos; lia.
    + apply Z.div_le_upper_bound; lia.
Qed.

(** Whatever [findDivisor] returns, either both dividers are 0, or they
    are in range, [n <= m], and the reported frequency is exactly what
    they produce, [srcHz / (m * n)], and is not below the requested one. *)
Theorem findDivisor_result_in_range (fuel : nat) srcHz desiredHz xMax yMax
    m n hz err :
  0 <= srcHz -> srcHz * 100 < two64 -> 1 <= desiredHz < 2 ^ 56 ->
  1 <= yMax <= xMax -> xMax < max_int ->
  bcm283x.findDivisor fuel srcHz desiredHz xMax yMax = Ret (m, n, hz, err) ->
  (m = 0 /\ n = 0 /\ hz = 0)
  \/ (1 <= n <= yMax /\ n <= m <= xMax
      /\ hz = srcHz / (m * n) /\ desiredHz <= hz).
Proof.
  intros Hs Hs100 Hd Hy Hx E.
  destruct (findDivisor_good_or_none fuel srcHz desiredHz xMax yMax m n hz
              err Hs Hs100 Hd Hy Hx E) as [H|H]; [right | left]; tauto.
Qed.

Lemma findDivisor_result_in_range_witness :
  (89 = 0 /\ 23 = 0 /\ 93795 = 0)
  \/ (1 <= 23 <= 33 /\ 23 <= 89 <= 4095
      /\ 93795 = 192000000 / (89 * 23) /\ 192000000 / 4095 <= 93795).
Proof.
  refine (findDivisor_result_in_range 10 192000000 (192000000 / 4095)
            4095 33 89 23 93795 23 _ _ _ _ _ eval_findDivisor_at_4095);
    vm_compute; repeat split; first [reflexivity | discriminate].
Defined.

(** A pair returned by the oversampling loop divides [srcHz] exactly down
    to a multiple [k * desiredHz], [k >= 2], that is either at most 10
    times the requested frequency or at most 100 kHz. *)
Theorem findDivisor_oversample_multiple (fuel : nat) srcHz desiredHz
    xMax yMax m n d :
  1 <= desiredHz < 2 ^ 56 -> 1 <= yMax <= xMax -> xMax < max_int ->
  bcm283x.findDivisor_oversample fuel srcHz desiredHz xMax yMax 2
  = Ret (Some (m, n, d)) ->
  exists k, 2 <= k /\ d = k * desiredHz /\ (k <= 10 \/ d <= 100000)
            /\ 1 <= n <= yMax /\ n <= m <= xMax /\ srcHz = m * n * d.
Proof.
  intros Hd Hy Hx E.
  pose proof (findDivisor_oversample_sound srcHz desiredHz xMax yMax Hd Hy Hx
                fuel 2 (in_cap_2 desiredHz Hd)) as H.
  rewrite E in H. exact H.
Qed.

Lemma findDivisor_oversample_multiple_witness :
  exists k, 2 <= k /\ 10 = k * 5 /\ (k <= 10 \/ 10 <= 100000)
            /\ 1 <= 1 <= 3 /\ 1 <= 3 <= 10 /\ 30 = 3 * 1 * 10.
Proof.
  apply (findDivisor_oversample_multiple 1 30 5 10 3 3 1 10);
    vm_compute; repeat split; first [reflexivity | discriminate].
Defined.

(** With a requested frequency of at least 1 Hz, [findDivisor] returns,
    without a panic, once the oversampling loop is given
    [max 11 (100000 / desiredHz + 1)] rounds. *)
Theorem findDivisor_terminates (fuel : nat) srcHz desiredHz xMax yMax :
  1 <= desiredHz < 2 ^ 56 -> 1 <= yMax <= xMax -> xMax < max_int ->
  (oversample_rounds desiredHz <= fuel)%nat ->
  exists m n hz err,
    bcm283x.findDivisor fuel srcHz desiredHz xMax yMax = Ret (m, n, hz, err).
Proof.
  intros Hd Hy Hx Hf.
  destruct (findDivisor_returns srcHz desiredHz xMax yMax Hd Hy Hx fuel Hf)
    as [[[[m n] hz] err] E].
  exists m, n, hz, err. exact E.
Qed.

Lemma findDivisor_terminates_witness :
  exists m n hz err,
    bcm283x.findDivisor 11 192000000 120000 4095 33 = Ret (m, n, hz, err).
Proof.
  apply (findDivisor_terminates 11 192000000 120000 4095 33);
    vm_compute; repeat split; first [reflexivity | discriminate].
Defined.

(** A requested frequency above the source frequency yields no dividers:
    [findDivisor] returns x = 0, y = 0, a frequency of 0 and the initial
    [minErr] scaled down, not an error. *)
Theorem findDivisor_above_source (fuel : nat) srcHz desiredHz xMax yMax :
  1 <= srcHz < desiredHz -> desiredHz < 2 ^ 56 ->
  1 <= yMax <= xMax -> xMax < max_int ->
  (oversample_rounds desiredHz <= fuel)%nat ->
  bcm283x.findDivisor fuel srcHz desiredHz xMax yMax
  = Ret (0, 0, 0, 0xFFFFFFFFFFFFFFF / 100).
Proof.
  intros Hs Hd Hy Hx Hf.
  assert (P56 : 2 ^ 56 = 72057594037927936) by reflexivity.
  assert (Hs100 : srcHz * 100 < two64) by (unfold two64; lia).
  destruct (findDivisor_returns srcHz desiredHz xMax yMax ltac:(lia) Hy Hx
              fuel Hf) as [[[[m n] hz] err] E].
  rewrite E.
  destruct (findDivisor_good_or_none fuel srcHz desiredHz xMax yMax m n hz
              err ltac:(lia) Hs100 ltac:(lia) Hy Hx E)
    as [(Hn & Hm & Hhz & Hge & _) | (-> & -> & -> & -> & _)];
    [exfalso | reflexivity].
  assert (0 < m * n) by nia.
  assert (srcHz / (m * n) <= srcHz).
  { apply Z.div_le_upper_bound; [lia|].
    assert (1 * srcHz <= m * n * srcHz)
      by (apply Z.mul_le_mono_nonneg_r; lia).
    lia. }
  lia.
Qed.

Lemma findDivisor_above_source_witness :
  bcm283x.findDivisor 11 19200000 25000000 4095 33
  = Ret (0, 0, 0, 0xFFFFFFFFFFFFFFF / 100).
Proof.
  apply (findDivisor_above_source 11 19200000 25000000 4095 33);
    vm_compute; repeat split; first [reflexivity | discriminate].
Defined.

(** ** A requested frequency of 0 *)

Lemma findDivisorExact_y_zero srcHz x (n : nat) :
  forall j0,
  1 <= srcHz -> 1 <= j0 -> j0 + Z.of_nat n <= two64 -> x < two64 ->
  bcm283x.findDivisorExact_y n srcHz 0 x j0 = (0, 0).
Proof.
  induction n as [|n IH]; intros j0 Hs Hj Hn Hx;
    cbn [bcm283x.findDivisorExact_y]; [reflexivity|].
  rewrite (uint64_small j0) by lia.
  destruct (Z.eqb_spec (srcHz mod j0) 0) as [E|E]; cbn [negb];
    [|apply IH; lia].
  destruct (Z.ltb_spec (srcHz / j0) 0) as [L|L]; [reflexivity|].
  pose proof (findDivisorExact_x_spec 0 (Z.to_nat (x - j0 + 1))
                (srcHz / j0) j0) as Hin.
  destruct (bcm283x.findDivisorExact_x (Z.to_nat (x - j0 + 1))
              (srcHz / j0) 0 j0) as [i|]; [exfalso | apply IH; lia].
  destruct Hin as (Hr & H1 & H2).
  rewrite (uint64_small i) in H1, H2 by lia.
  pose proof (Z.div_mod srcHz j0 ltac:(lia)) as D1.
  pose proof (Z.div_mod (srcHz / j0) i ltac:(lia)) as D2.
  rewrite E in D1. rewrite H1, H2 in D2. nia.
Qed.

Lemma findDivisor_oversample_zero srcHz x y (fuel : nat) :
  1 <= srcHz -> 1 <= y <= x -> x < max_int ->
  forall i,
    bcm283x.findDivisor_oversample fuel srcHz 0 x y i = OutOfFuel.
Proof.
  intros Hs Hy Hx. pose proof max_int_lt_two64 as Hm.
  induction fuel as [|fuel IH]; intros i;
    cbn [bcm283x.findDivisor_oversample]; [reflexivity|].
  cbv zeta. rewrite Z.mul_0_r. change (uint64 0) with 0.
  change (0 >? 100000) with false. cbn [andb].
  unfold bcm283x.findDivisorExact.
  destruct (Z.ltb_spec x y); [lia|].
  rewrite findDivisorExact_y_zero by lia.
  cbn [Z.eqb negb]. apply IH.
Qed.

(** With a requested frequency of 0 and a source of at least 1 Hz, no
    number of rounds lets the oversampling loop of [findDivisor] exit, and
    [calcSource], which starts with it, does not return either. *)
Theorem findDivisor_zero_never_returns (fuel : nat) srcHz xMax yMax :
  1 <= srcHz -> 1 <= yMax <= xMax -> xMax < max_int ->
  bcm283x.findDivisor fuel srcHz 0 xMax yMax = OutOfFuel
  /\ (xMax = bcm283x.clockDiviMax ->
      bcm283x.calcSource fuel 0 yMax = OutOfFuel).
Proof.
  intros Hs Hy Hx. pose proof max_int_lt_two64 as Hm.
  assert (E : forall s, 1 <= s ->
            bcm283x.findDivisor fuel s 0 xMax yMax = OutOfFuel).
  { intros s Hs1. unfold bcm283x.findDivisor, bcm283x.findDivisorExact.
    destruct (Z.ltb_spec xMax yMax); [lia|].
    rewrite findDivisorExact_y_zero by lia. cbn [Z.eqb negb].
    rewrite findDivisor_oversample_zero by lia. reflexivity. }
  split; [apply E; exact Hs|].
  intros ->. unfold bcm283x.calcSource.
  change (0 >? 25000000) with false. cbv iota.
  rewrite E by (unfold bcm283x.clk19dot2MHz; lia). reflexivity.
Qed.

Lemma findDivisor_zero_never_returns_witness :
  bcm283x.findDivisor 1000 19200000 0 4095 33 = OutOfFuel
  /\ (4095 = bcm283x.clockDiviMax ->
      bcm283x.calcSource 1000 0 33 = OutOfFuel).
Proof.
  apply (findDivisor_zero_never_returns 1000 19200000 4095 33);
    vm_compute; repeat split; first [reflexivity | discriminate].
Defined.

(** ** Choosing the source *)

Section CalcSource.

Variables hz maxDiv : Z.
Hypothesis Hhz : 1 <= hz <= 25000000.
Hypothesis Hmax : 1 <= maxDiv <= bcm283x.clockDiviMax.

(** The 500 MHz source always has a pair: [(1, 1)] is above the doubled
    target. *)
Lemma PLLD_has_pair (fuel : nat) m n actual rest :
  bcm283x.findDivisor fuel bcm283x.clk500MHz hz bcm283x.clockDiviMax maxDiv
  = Ret (m, n, actual, rest) ->
  1 <= n <= maxDiv /\ n <= m <= bcm283x.clockDiviMax
  /\ actual = bcm283x.clk500MHz / (m * n) /\ hz <= actual
  /\ 0 <= rest <= bcm283x.clk500MHz.
Proof using Hhz Hmax.
  intros E.
  assert (H0 : 0 <= bcm283x.clk500MHz) by discriminate.
  assert (H1 : bcm283x.clk500MHz * 100 < two64) by reflexivity.
  assert (H2 : 1 <= hz < 2 ^ 56) by lia.
  assert (H3 : bcm283x.clockDiviMax < max_int) by reflexivity.
  destruct (findDivisor_good_or_none fuel bcm283x.clk500MHz hz
              bcm283x.clockDiviMax maxDiv m n actual rest H0 H1 H2 Hmax H3 E)
    as [H|H]; [tauto|].
  destruct H as (_ & _ & _ & _ & Hall). exfalso.
    assert (Hc : 1 <= 1 <= bcm283x.clockDiviMax)
      by (split; discriminate).
    specialize (Hall 1 1 Hc ltac:(lia)).
    unfold fallback_err, bcm283x.clk500MHz in Hall.
    rewrite !Z.div_1_r in Hall.
    rewrite uint64_small in Hall by (unfold two64; lia). lia.
Qed.

Lemma calcSource_ok (fuel : nat) :
  (oversample_rounds hz <= fuel)%nat ->
  exists ctl m n actual,
    bcm283x.calcSource fuel hz maxDiv = Ret (ctl, m, n, actual, None)
    /\ ((ctl = bcm283x.clockSrc19dot2MHz
         /\ actual = bcm283x.clk19dot2MHz / (m * n))
        \/ (ctl = bcm283x.clockSrcPLLD
            /\ actual = bcm283x.clk500MHz / (m * n)))
    /\ 1 <= n <= maxDiv /\ n <= m <= bcm283x.clockDiviMax
    /\ hz <= actual.
Proof using Hhz Hmax.
  intros Hf. unfold bcm283x.calcSource.
  destruct (Z.gtb_spec hz 25000000); [lia|].
  assert (Hd : 1 <= hz < 2 ^ 56) by lia.
  assert (Hx : bcm283x.clockDiviMax < max_int) by reflexivity.
  destruct (findDivisor_returns bcm283x.clk19dot2MHz hz bcm283x.clockDiviMax
              maxDiv Hd Hmax Hx fuel Hf) as [[[[x19 y19] a19] r19] E19].
  destruct (findDivisor_returns bcm283x.clk500MHz hz bcm283x.clockDiviMax
              maxDiv Hd Hmax Hx fuel Hf) as [[[[x5 y5] a5] r5] E5].
  pose proof (PLLD_has_pair fuel x5 y5 a5 r5 E5) as (G1 & G2 & G3 & G4 & G5).
  rewrite E19.
  assert (use500 : exists ctl m n actual,
            Ret (bcm283x.clockSrcPLLD, x5, y5, a5, @None bcm283x.error_value)
            = Ret (ctl, m, n, actual, None)
            /\ ((ctl = bcm283x.clockSrc19dot2MHz
                 /\ actual = bcm283x.clk19dot2MHz / (m * n))
                \/ (ctl = bcm283x.clockSrcPLLD
                    /\ actual = bcm283x.clk500MHz / (m * n)))
            /\ 1 <= n <= maxDiv /\ n <= m <= bcm283x.clockDiviMax
            /\ hz <= actual).
  { exists bcm283x.clockSrcPLLD, x5, y5, a5.
    split; [reflexivity|]. split; [right; auto|]. auto. }
  assert (H0 : 0 <= bcm283x.clk19dot2MHz) by discriminate.
  assert (H1 : bcm283x.clk19dot2MHz * 100 < two64) by reflexivity.
  destruct (findDivisor_good_or_none fuel bcm283x.clk19dot2MHz hz
              bcm283x.clockDiviMax maxDiv x19 y19 a19 r19 H0 H1 Hd Hmax Hx
              E19)
    as [(F1 & F2 & F3 & F4 & F5) | (-> & -> & -> & -> & _)].
  - assert (use19 : exists ctl m n actual,
              Ret (bcm283x.clockSrc19dot2MHz, x19, y19, a19,
                   @None bcm283x.error_value)
              = Ret (ctl, m, n, actual, None)
              /\ ((ctl = bcm283x.clockSrc19dot2MHz
                   /\ actual = bcm283x.clk19dot2MHz / (m * n))
                  \/ (ctl = bcm283x.clockSrcPLLD
                      /\ actual = bcm283x.clk500MHz / (m * n)))
              /\ 1 <= n <= maxDiv /\ n <= m <= bcm283x.clockDiviMax
              /\ hz <= actual).
    { exists bcm283x.clockSrc19dot2MHz, x19, y19, a19.
      split; [reflexivity|]. split; [left; auto|]. auto. }
    destruct (r19 =? 0); [exact use19|]. rewrite E5.
    destruct (r5 =? 0); [exact use500|].
    destruct (r19 <? r5); [exact use19 | exact use500].
  - change (0xFFFFFFFFFFFFFFF / 100 =? 0) with false. cbv iota.
    rewrite E5.
    destruct (r5 =? 0); [exact use500|].
    destruct (Z.ltb_spec (0xFFFFFFFFFFFFFFF / 100) r5) as [L|L];
      [exfalso | exact use500].
    unfold bcm283x.clk500MHz in G5.
    change (0xFFFFFFFFFFFFFFF / 100) with 11529215046068469 in L. lia.
Qed.

End CalcSource.

(** For every frequency from 1 Hz to 25 MHz and every [maxDiv] from 1 to
    [clockDiviMax], [calcSource] returns no error, one of the two sources,
    and dividers that are in range (so never 0), with [y <= x]; the
    frequency it reports is the source frequency divided by [x * y],
    rounded down, and is not below the requested one. *)
Theorem calcSource_valid (fuel : nat) hz maxDiv :
  1 <= hz <= 25000000 -> 1 <= maxDiv <= bcm283x.clockDiviMax ->
  (oversample_rounds hz <= fuel)%nat ->
  exists ctl x y actual,
    bcm283x.calcSource fuel hz maxDiv = Ret (ctl, x, y, actual, None)
    /\ ((ctl = bcm283x.clockSrc19dot2MHz
         /\ actual = bcm283x.clk19dot2MHz / (x * y))
        \/ (ctl = bcm283x.clockSrcPLLD
            /\ actual = bcm283x.clk500MHz / (x * y)))
    /\ 1 <= y <= maxDiv /\ y <= x <= bcm283x.clockDiviMax
    /\ hz <= actual.
Proof. intros Hhz Hmax Hf. exact (calcSource_ok hz maxDiv Hhz Hmax fuel Hf). Qed.

Lemma calcSource_valid_witness :
  exists ctl x y actual,
    bcm283x.calcSource 11 120000 33 = Ret (ctl, x, y, actual, None)
    /\ ((ctl = bcm283x.clockSrc19dot2MHz
         /\ actual = bcm283x.clk19dot2MHz / (x * y))
        \/ (ctl = bcm283x.clockSrcPLLD
            /\ actual = bcm283x.clk500MHz / (x * y)))
    /\ 1 <= y <= 33 /\ y <= x <= bcm283x.clockDiviMax
    /\ 120000 <= actual.
Proof.
  apply (calcSource_valid 11 120000 33);
    vm_compute; repeat split; first [reflexivity | discriminate].
Defined.

(** When the 19.2 MHz source has an exact pair for the requested
    frequency, [calcSource] selects that source, with an exact pair and the
    requested frequency as the actual one, whatever the 500 MHz source
    could do. *)
Theorem calcSource_prefers_19dot2MHz (fuel : nat) hz maxDiv :
  1 <= hz <= 25000000 -> 1 <= maxDiv <= bcm283x.clockDiviMax ->
  (exists x y, exact_pair bcm283x.clk19dot2MHz hz bcm283x.clockDiviMax
                 maxDiv x y) ->
  exists x y,
    bcm283x.calcSource fuel hz maxDiv
    = Ret (bcm283x.clockSrc19dot2MHz, x, y, hz, None)
    /\ exact_pair bcm283x.clk19dot2MHz hz bcm283x.clockDiviMax maxDiv x y.
Proof.
  intros Hhz Hmax (x0 & y0 & Hx0 & Hy0 & Hxy0 & Hex0).
  apply exact_pair_mul in Hex0; try lia.
  assert (Hx : bcm283x.clockDiviMax < max_int) by reflexivity.
  destruct (findDivisorExact_spec bcm283x.clk19dot2MHz hz
              bcm283x.clockDiviMax maxDiv ltac:(lia) Hmax Hx)
    as [[_ Hno] | (m & k & E & Hk & Hm & He & _)].
  - exfalso. apply (Hno x0 y0); auto; lia.
  - exists m, k. split.
    + unfold bcm283x.calcSource.
      destruct (Z.gtb_spec hz 25000000); [lia|].
      unfold bcm283x.findDivisor. rewrite E.
      destruct (Z.eqb_spec m 0); [lia|]. reflexivity.
    + unfold exact_pair. repeat split; try lia;
        apply (exact_pair_mul bcm283x.clk19dot2MHz hz m k); auto; lia.
Qed.

Lemma calcSource_prefers_19dot2MHz_witness :
  exists x y,
    bcm283x.calcSource 0 120000 33
    = Ret (bcm283x.clockSrc19dot2MHz, x, y, 120000, None)
    /\ exact_pair bcm283x.clk19dot2MHz 120000 bcm283x.clockDiviMax 33 x y.
Proof.
  apply (calcSource_prefers_19dot2MHz 0 120000 33).
  - lia.
  - split; discriminate.
  - exists 160, 1. vm_compute.
    repeat split; first [reflexivity | discriminate].
Defined.

(** * Further properties of the rasterizer *)


Lemma rastered_refl lvl setMask clearMask st :
  rastered lvl setMask clearMask 0 st st.
Proof. split; apply masked_start. Qed.

(** Every call of [Raster32] returns, and its buffers are the initial ones
    with the masks OR-ed into a prefix of the slots according to some
    level function; after an error they are the initial ones. *)
Lemma Raster32_outcome (s : stream.Stream) resolution clear set
    setMask clearMask :
  exists err st' lvl P,
    stream.Raster32 s resolution clear set setMask clearMask = Ret (err, st')
    /\ rastered lvl setMask clearMask P (clear, set) st'
    /\ (err <> None -> st' = (clear, set)).
Proof.
  assert (Hfail : forall msg : string,
    exists (err : stream.error) st' (lvl : nat -> bool) P,
      Ret (Some msg, (clear, set)) = Ret (err, st')
      /\ rastered lvl setMask clearMask P (clear, set) st'
      /\ (err <> None -> st' = (clear, set))).
  { intros msg. exists (Some msg), (clear, set), (fun _ => true), 0%nat.
    split; [reflexivity|]. split; [apply rastered_refl | auto]. }
  unfold stream.Raster32.
  destruct (setMask =? 0); [apply Hfail|].
  destruct (clearMask =? 0); [apply Hfail|].
  destruct (length clear =? 0)%nat; [apply Hfail|].
  destruct (length set =? 0)%nat; [apply Hfail|].
  destruct (Nat.eqb_spec (length clear) (length set)) as [Hlen|];
    [|apply Hfail].
  cbn [negb]. destruct s as [b|e|parts res loops|r d].
  - unfold stream.Bits_raster32.
    destruct (Z.eqb_spec resolution (stream.Bits_Res b)) as [->|];
      [|apply Hfail].
    cbn [negb].
    destruct (Z.gtb_spec (stream.Bits_Duration b)
                (int64 (stream.Bits_Res b * Z.of_nat (length clear))))
      as [|Hcap]; [apply Hfail|].
    cbv zeta.
    set (m := if (length (stream.Bits_Bits b) <? length clear / 8)%nat
              then length (stream.Bits_Bits b) else (length clear / 8)%nat).
    assert (Hm : (m <= length (stream.Bits_Bits b)
                  /\ m <= length clear / 8)%nat).
    { subst m. destruct (Nat.ltb_spec (length (stream.Bits_Bits b))
                           (length clear / 8)); lia. }
    assert (H8 : (8 * (length clear / 8) <= length clear)%nat)
      by (apply Nat.Div0.mul_div_le).
    destruct (Bits_raster32_loop setMask clearMask (stream.Bits_Bits b)
                (clear, set) m) as (st' & -> & Hr); cbn [fst snd]; try lia.
    exists None, st', (stream_bit (stream.Bits_Bits b)), (8 * m)%nat.
    split; [reflexivity|]. split; [exact Hr | congruence].
  - unfold stream.Edges_raster32.
    destruct (resolution <? stream.Edges_Res e); [apply Hfail|].
    destruct (stream.Edges_Duration e
              >? int64 (resolution * Z.of_nat (length clear)));
      [apply Hfail|].
    cbv zeta.
    destruct (Edges_raster32_loop setMask clearMask (clear, set) gpio.High
                (length clear)) as (st' & -> & Hr); cbn [fst snd]; try lia.
    exists None, st', (fun _ => gpio.High), (length clear).
    split; [reflexivity|]. split; [exact Hr | congruence].
  - apply Hfail.
  - apply Hfail.
Qed.


Lemma lor_keeps_other_bits v mask :
  Z.land (Z.lor v mask) (Z.lnot mask) = Z.land v (Z.lnot mask)
  /\ Z.land (Z.lor v mask) v = v.
Proof.
  split; apply Z.bits_inj'; intros n Hn;
    rewrite ?Z.land_spec, ?Z.lor_spec, ?Z.lnot_spec by lia;
    destruct (Z.testbit v n), (Z.testbit mask n); reflexivity.
Qed.

Lemma masked_only_mask_bits sel mask P buf0 buf k v' :
  masked sel mask P buf0 buf -> buf !! k = Some v' ->
  exists v, buf0 !! k = Some v
            /\ Z.land v' (Z.lnot mask) = Z.land v (Z.lnot mask)
            /\ Z.land v' v = v.
Proof.
  intros H Hk. rewrite (H k) in Hk.
  destruct (buf0 !! k) as [v|]; [|discriminate].
  cbn [fmap option_fmap option_map] in Hk. injection Hk as <-.
  exists v. split; [reflexivity|].
  destruct ((k <? P)%nat && sel k).
  - apply lor_keeps_other_bits.
  - split; [reflexivity | apply Z.land_diag].
Qed.

(** [Raster32] only turns bits on, and only bits of [setMask] in [set] and
    of [clearMask] in [clear]: in every slot the bits outside the mask are
    as they were, and every bit that was 1 is still 1.  Streams rasterized
    with disjoint masks into the same buffers do not disturb one
    another. *)
Theorem Raster32_touches_only_mask_bits (s : stream.Stream) resolution
    clear set setMask clearMask err clear' set' :
  stream.Raster32 s resolution clear set setMask clearMask
  = Ret (err, (clear', set')) ->
  forall k : nat,
    (forall v', set' !! k = Some v' ->
       exists v, set !! k = Some v
                 /\ Z.land v' (Z.lnot setMask) = Z.land v (Z.lnot setMask)
                 /\ Z.land v' v = v)
    /\ (forall v', clear' !! k = Some v' ->
          exists v, clear !! k = Some v
                    /\ Z.land v' (Z.lnot clearMask)
                       = Z.land v (Z.lnot clearMask)
                    /\ Z.land v' v = v).
Proof.
  intros E k.
  destruct (Raster32_outcome s resolution clear set setMask clearMask)
    as (err0 & st' & lvl & P & E0 & [Hc Hs] & _).
  rewrite E in E0. injection E0 as <- <-. cbn [fst snd] in Hc, Hs.
  split; intros v' Hv; eapply masked_only_mask_bits; eauto.
Qed.

Lemma Raster32_touches_only_mask_bits_witness :
  (forall v', [5; 4; 5; 4; 4; 4; 4; 4; 4] !! 2%nat = Some v' ->
     exists v, replicate 9 4 !! 2%nat = Some v
               /\ Z.land v' (Z.lnot 1) = Z.land v (Z.lnot 1)
               /\ Z.land v' v = v)
  /\ (forall v', [8; 10; 8; 10; 10; 10; 10; 10; 8] !! 2%nat = Some v' ->
        exists v, replicate 9 8 !! 2%nat = Some v
                  /\ Z.land v' (Z.lnot 2) = Z.land v (Z.lnot 2)
                  /\ Z.land v' v = v).
Proof.
  apply (Raster32_touches_only_mask_bits
           (stream.SBits {| stream.Bits_Bits := [5]; stream.Bits_Res := 1 |})
           1 (replicate 9 8) (replicate 9 4) 1 2 None).
  vm_compute. reflexivity.
Defined.

(** [Raster32] checks its arguments before it looks at the stream: a zero
    mask, an empty buffer or buffers of different lengths give an error for
    every stream, and the buffers are not written. *)
Theorem Raster32_rejects_bad_arguments (s : stream.Stream) resolution
    clear set setMask clearMask :
  setMask = 0 \/ clearMask = 0 \/ clear = [] \/ set = []
  \/ length clear <> length set ->
  exists msg,
    stream.Raster32 s resolution clear set setMask clearMask
    = Ret (Some msg, (clear, set))
    /\ In msg ["setMask is 0"; "clearMask is 0"; "clear buffer is empty";
               "set buffer is empty";
               "clear and set buffers have different length"].
Proof.
  intros H. unfold stream.Raster32.
  destruct (Z.eqb_spec setMask 0) as [|Hs];
    [eexists; split; [reflexivity | cbn; tauto]|].
  destruct (Z.eqb_spec clearMask 0) as [|Hc];
    [eexists; split; [reflexivity | cbn; tauto]|].
  destruct (Nat.eqb_spec (length clear) 0) as [|Hcl];
    [eexists; split; [reflexivity | cbn; tauto]|].
  destruct (Nat.eqb_spec (length set) 0) as [|Hse];
    [eexists; split; [reflexivity | cbn; tauto]|].
  destruct (Nat.eqb_spec (length clear) (length set)) as [Hlen|Hlen];
    [|eexists; split; [reflexivity | cbn; tauto]].
  exfalso. destruct H as [H|[H|[H|[H|H]]]]; try contradiction.
  - subst clear. apply Hcl. reflexivity.
  - subst set. apply Hse. reflexivity.
Qed.

Lemma Raster32_rejects_bad_arguments_witness :
  exists msg,
    stream.Raster32
      (stream.SBits {| stream.Bits_Bits := replicate 100 0;
                       stream.Bits_Res := 1000000000 |})
      8000000 [] [] 0 0
    = Ret (Some msg, ([], []))
    /\ In msg ["setMask is 0"; "clearMask is 0"; "clear buffer is empty";
               "set buffer is empty";
               "clear and set buffers have different length"].
Proof.
  apply (Raster32_rejects_bad_arguments
           (stream.SBits {| stream.Bits_Bits := replicate 100 0;
                            stream.Bits_Res := 1000000000 |})
           8000000 [] [] 0 0).
  left. reflexivity.
Defined.

(** What a successful [Raster32] of a [Bits] stream went through. *)
Lemma Raster32_Bits_success (b : stream.Bits) resolution clear set
    setMask clearMask st' :
  stream.Raster32 (stream.SBits b) resolution clear set setMask clearMask
  = Ret (None, st') ->
  resolution = stream.Bits_Res b /\ length clear = length set
  /\ rastered (stream_bit (stream.Bits_Bits b)) setMask clearMask
       (8 * Nat.min (length clear / 8) (length (stream.Bits_Bits b)))
       (clear, set) st'.
Proof.
  unfold stream.Raster32.
  destruct (setMask =? 0); [discriminate|].
  destruct (clearMask =? 0); [discriminate|].
  destruct (length clear =? 0)%nat; [discriminate|].
  destruct (length set =? 0)%nat; [discriminate|].
  destruct (Nat.eqb_spec (length clear) (length set)) as [Hlen|];
    [|discriminate].
  cbn [negb]. intros E.
  assert (Hres : resolution = stream.Bits_Res b).
  { unfold stream.Bits_raster32 in E.
    destruct (Z.eqb_spec resolution (stream.Bits_Res b));
      [auto | discriminate]. }
  subst resolution.
  assert (Hcap : stream.Bits_Duration b
                 <= int64 (stream.Bits_Res b * Z.of_nat (length clear))).
  { unfold stream.Bits_raster32 in E. rewrite Z.eqb_refl in E.
    cbn [negb] in E.
    destruct (Z.gtb_spec (stream.Bits_Duration b)
                (int64 (stream.Bits_Res b * Z.of_nat (length clear))));
      [discriminate | lia]. }
  destruct (Bits_raster32_accepts b clear set setMask clearMask Hlen Hcap)
    as (st1 & m & E' & -> & Hr).
  rewrite E' in E. injection E as <-. auto.
Qed.

(** A successful [Raster32] of a [Bits] stream, into buffers of any
    content: with [P = 8 * min (len(clear)/8) len(b.Bits)], slot [k < P]
    has [setMask] OR-ed into [set[k]] when bit [k] of the stream is 1 and
    [clearMask] OR-ed into [clear[k]] when it is 0; nothing else changes.
    A buffer shorter than the stream is filled up to its last whole group
    of 8 slots and the rest of the stream is dropped. *)
Theorem Raster32_Bits_rasters_prefix (b : stream.Bits) resolution clear set
    setMask clearMask clear' set' :
  stream.Raster32 (stream.SBits b) resolution clear set setMask clearMask
  = Ret (None, (clear', set')) ->
  forall k : nat,
    let covered :=
      (k <? 8 * Nat.min (length clear / 8) (length (stream.Bits_Bits b)))%nat
    in
    set' !! k
    = (fun v => if covered && stream_bit (stream.Bits_Bits b) k
                then Z.lor v setMask else v) <$> set !! k
    /\ clear' !! k
       = (fun v => if covered && negb (stream_bit (stream.Bits_Bits b) k)
                   then Z.lor v clearMask else v) <$> clear !! k.
Proof.
  intros E k. apply Raster32_Bits_success in E as (_ & _ & Hc & Hs).
  cbn [fst snd] in Hc, Hs. cbv zeta. split; [apply Hs | apply Hc].
Qed.

Lemma Raster32_Bits_rasters_prefix_witness :
  [5; 4; 5; 4; 4; 4; 4; 4; 4] !! 2%nat
  = (fun v => if (2 <? 8 * Nat.min (length (replicate 9 8) / 8)
                         (length [5; 255]))%nat
                 && stream_bit [5; 255] 2
              then Z.lor v 1 else v) <$> replicate 9 4 !! 2%nat
  /\ [8; 10; 8; 10; 10; 10; 10; 10; 8] !! 2%nat
     = (fun v => if (2 <? 8 * Nat.min (length (replicate 9 8) / 8)
                            (length [5; 255]))%nat
                    && negb (stream_bit [5; 255] 2)
                 then Z.lor v 2 else v) <$> replicate 9 8 !! 2%nat.
Proof.
  apply (Raster32_Bits_rasters_prefix
           {| stream.Bits_Bits := [5; 255]; stream.Bits_Res := 1 |}
           1 (replicate 9 8) (replicate 9 4) 1 2).
  vm_compute. reflexivity.
Defined.

Lemma Raster32_Bits_frame_witness :
  (8 * length [5] <= 8)%nat
  /\ [8; 10; 8; 10; 10; 10; 10; 10; 8] !! 8%nat = replicate 9 8 !! 8%nat
  /\ [5; 4; 5; 4; 4; 4; 4; 4; 4] !! 8%nat = replicate 9 4 !! 8%nat.
Proof.
  assert (H : (8 * length [5] <= 8)%nat) by (cbn; lia).
  split; [exact H|].
  apply (Raster32_Bits_frame
           {| stream.Bits_Bits := [5]; stream.Bits_Res := 1 |}
           1 (replicate 9 8) (replicate 9 4) 1 2
           [8; 10; 8; 10; 10; 10; 10; 10; 8] [5; 4; 5; 4; 4; 4; 4; 4; 4]);
    [vm_compute; reflexivity | exact H].
Defined.

Lemma Raster32_Edges_always_high_witness :
  [0; 0] = [0; 0] /\ [1; 5] = (fun v => Z.lor v 1) <$> [0; 4].
Proof.
  apply (Raster32_Edges_always_high
           {| stream.Edges_Edges := [0; 2]; stream.Edges_Res := 1 |}
           1 [0; 0] [0; 4] 1 2).
  vm_compute. reflexivity.
Defined.

Lemma Raster32_Edges_rejects_finer_witness :
  stream.Raster32
    (stream.SEdges {| stream.Edges_Edges := [1000; 1];
                      stream.Edges_Res := 1000 |})
    8 [0; 0] [0; 0] 1 2
  = Ret (Some "resolution is too coarse", ([0; 0], [0; 0])).
Proof.
  apply (Raster32_Edges_rejects_finer
           {| stream.Edges_Edges := [1000; 1]; stream.Edges_Res := 1000 |}
           8 [0; 0] [0; 0] 1 2);
    first [discriminate | reflexivity].
Defined.

(** A [Bits] stream is rasterized at its own resolution only: any other
    target resolution is rejected and the buffers are not written. *)
Theorem Raster32_Bits_resolution_mismatch (b : stream.Bits) resolution
    clear set setMask clearMask :
  setMask <> 0 -> clearMask <> 0 -> clear <> [] -> set <> [] ->
  length clear = length set ->
  resolution <> stream.Bits_Res b ->
  stream.Raster32 (stream.SBits b) resolution clear set setMask clearMask
  = Ret (Some "TODO: implement resolution matching", (clear, set)).
Proof.
  intros Hs Hc Hcl Hse Hlen Hres.
  rewrite Raster32_checks_pass by auto. unfold stream.Bits_raster32.
  destruct (Z.eqb_spec resolution (stream.Bits_Res b)); [contradiction|].
  reflexivity.
Qed.

Lemma Raster32_Bits_resolution_mismatch_witness :
  stream.Raster32
    (stream.SBits {| stream.Bits_Bits := replicate 100 0;
                     stream.Bits_Res := 1000000000 |})
    8000000 (replicate 800 0) (replicate 800 0) 1 2
  = Ret (Some "TODO: implement resolution matching",
         (replicate 800 0, replicate 800 0)).
Proof.
  apply (Raster32_Bits_resolution_mismatch
           {| stream.Bits_Bits := replicate 100 0;
              stream.Bits_Res := 1000000000 |}
           8000000 (replicate 800 0) (replicate 800 0) 1 2);
    first [discriminate | reflexivity].
Defined.

(** The capacity check of [Bits.raster32] counts the stream in bytes
    against the buffer in slots: with a positive resolution (and no
    overflow) the call succeeds as soon as the buffer has one slot per
    byte of the stream, and fails with "buffer is too short" below
    that. *)
Theorem Raster32_Bits_capacity_check (b : stream.Bits) clear set
    setMask clearMask :
  setMask <> 0 -> clearMask <> 0 -> clear <> [] -> set <> [] ->
  length clear = length set ->
  0 < stream.Bits_Res b ->
  stream.Bits_Res b
  * Z.of_nat (Nat.max (length clear) (length (stream.Bits_Bits b)))
  <= max_int64 ->
  ((length (stream.Bits_Bits b) <= length clear)%nat ->
   exists st',
     stream.Raster32 (stream.SBits b) (stream.Bits_Res b) clear set
       setMask clearMask = Ret (None, st'))
  /\ ((length clear < length (stream.Bits_Bits b))%nat ->
      stream.Raster32 (stream.SBits b) (stream.Bits_Res b) clear set
        setMask clearMask = Ret (Some "buffer is too short", (clear, set))).
Proof.
  intros Hs Hc Hcl Hse Hlen Hres Hovf.
  rewrite Raster32_checks_pass by auto.
  unfold max_int64 in Hovf.
  set (r := stream.Bits_Res b) in *.
  set (n := length (stream.Bits_Bits b)) in *.
  assert (H1 : r * Z.of_nat (length clear) <= r * Z.of_nat (Nat.max (length clear) n))
    by (apply Z.mul_le_mono_nonneg_l; lia).
  assert (H2 : r * Z.of_nat n <= r * Z.of_nat (Nat.max (length clear) n))
    by (apply Z.mul_le_mono_nonneg_l; lia).
  assert (H3 : 0 <= r * Z.of_nat (length clear)) by nia.
  assert (H4 : 0 <= r * Z.of_nat n) by nia.
  assert (Ed : stream.Bits_Duration b = r * Z.of_nat n).
  { unfold stream.Bits_Duration. fold r n. apply int64_small. lia. }
  assert (Ec : int64 (r * Z.of_nat (length clear))
               = r * Z.of_nat (length clear)) by (apply int64_small; lia).
  split; intros Hn.
  - destruct (Bits_raster32_accepts b clear set setMask clearMask Hlen)
      as (st' & m & E & _); [|eauto].
    fold r. rewrite Ed, Ec. apply Z.mul_le_mono_nonneg_l; lia.
  - unfold stream.Bits_raster32. fold r. rewrite Z.eqb_refl. cbn [negb].
    rewrite Ed, Ec.
    destruct (Z.gtb_spec (r * Z.of_nat n) (r * Z.of_nat (length clear)));
      [reflexivity|].
    exfalso. assert (r * Z.of_nat (length clear) < r * Z.of_nat n)
      by (apply Z.mul_lt_mono_pos_l; lia). lia.
Qed.

Lemma Raster32_Bits_capacity_check_witness :
  ((length [5; 255] <= length (replicate 9 8))%nat ->
   exists st',
     stream.Raster32
       (stream.SBits {| stream.Bits_Bits := [5; 255]; stream.Bits_Res := 1 |})
       1 (replicate 9 8) (replicate 9 4) 1 2 = Ret (None, st'))
  /\ ((length (replicate 9 8) < length [5; 255])%nat ->
      stream.Raster32
        (stream.SBits {| stream.Bits_Bits := [5; 255]; stream.Bits_Res := 1 |})
        1 (replicate 9 8) (replicate 9 4) 1 2
      = Ret (Some "buffer is too short", (replicate 9 8, replicate 9 4))).
Proof.
  apply (Raster32_Bits_capacity_check
           {| stream.Bits_Bits := [5; 255]; stream.Bits_Res := 1 |}
           (replicate 9 8) (replicate 9 4) 1 2);
    first [discriminate | reflexivity | (vm_compute; discriminate)].
Defined.

(** ** Durations of edge lists and programs *)

Lemma fold_left_int64_sum (l : list Z) :
  forall acc,
  0 <= acc -> Forall (fun d => 0 <= d) l ->
  acc + sum_durations l <= max_int64 ->
  fold_left (fun t edge => int64 (t + edge)) l acc = acc + sum_durations l
  /\ 0 <= sum_durations l.
Proof.
  induction l as [|d l IH]; intros acc Hacc Hall Hsum;
    cbn [fold_left sum_durations fold_right] in *.
  - split; lia.
  - inversion Hall as [|? ? Hd Hl]; subst.
    fold (sum_durations l) in *.
    assert (Hs : 0 <= sum_durations l).
    { clear - Hl. induction Hl; cbn [sum_durations fold_right]; [lia|].
      fold (sum_durations l). lia. }
    unfold max_int64 in *.
    rewrite int64_small by lia.
    destruct (IH (acc + d) ltac:(lia) Hl ltac:(lia)) as [E _].
    rewrite E. split; lia.
Qed.

(** [Edges.Duration] is the sum of the edge durations, as long as these
    are non-negative and their sum fits a [time.Duration]. *)
Theorem Edges_Duration_sum (e : stream.Edges) :
  Forall (fun d => 0 <= d) (stream.Edges_Edges e) ->
  sum_durations (stream.Edges_Edges e) <= max_int64 ->
  stream.Edges_Duration e = sum_durations (stream.Edges_Edges e).
Proof.
  intros Hall Hsum. unfold stream.Edges_Duration.
  destruct (fold_left_int64_sum (stream.Edges_Edges e) 0 ltac:(lia) Hall
              ltac:(lia)) as [E _].
  rewrite E. lia.
Qed.

Lemma Edges_Duration_sum_witness :
  stream.Edges_Duration
    {| stream.Edges_Edges := [1000000000; 1000000];
       stream.Edges_Res := 1000000000 |}
  = sum_durations [1000000000; 1000000].
Proof.
  apply (Edges_Duration_sum
           {| stream.Edges_Edges := [1000000000; 1000000];
              stream.Edges_Res := 1000000000 |}).
  - repeat constructor; discriminate.
  - vm_compute. discriminate.
Defined.

Lemma fold_left_Duration (parts : list stream.Stream) :
  forall acc,
  fold_left (fun d s => int64 (d + stream.Duration s)) parts acc
  = fold_left (fun t edge => int64 (t + edge)) (map stream.Duration parts) acc.
Proof.
  induction parts as [|p parts IH]; intros acc; cbn [fold_left map];
    [reflexivity | apply IH].
Qed.

(** [Program.Duration] is the sum of the durations of the parts, times
    the loop count when that is above 1; a loop count of 1, 0 or -1 (the
    infinite loop) gives the duration of a single pass.  (Parts of
    non-negative duration, no overflow.) *)
Theorem Program_Duration_loops (Parts : list stream.Stream) (Res Loops : Z) :
  Forall (fun d => 0 <= d) (map stream.Duration Parts) ->
  sum_durations (map stream.Duration Parts) * Z.max 1 Loops <= max_int64 ->
  stream.Duration (stream.SProgram Parts Res Loops)
  = sum_durations (map stream.Duration Parts) * Z.max 1 Loops.
Proof.
  intros Hall Hsum. cbn [stream.Duration]. cbv zeta.
  rewrite fold_left_Duration.
  assert (Hnn : 0 <= sum_durations (map stream.Duration Parts)).
  { clear - Hall. induction Hall; cbn [sum_durations fold_right]; [lia|].
    fold (sum_durations l). lia. }
  destruct (fold_left_int64_sum (map stream.Duration Parts) 0 ltac:(lia)
              Hall ltac:(nia)) as [E _].
  rewrite E, Z.add_0_l.
  destruct (Z.gtb_spec Loops 1).
  - rewrite Z.max_r in * by lia. unfold max_int64 in *.
    apply int64_small. nia.
  - rewrite Z.max_l by lia. lia.
Qed.

Lemma Program_Duration_loops_witness :
  stream.Duration
    (stream.SProgram
       [stream.SEdges {| stream.Edges_Edges := [1000; 1];
                         stream.Edges_Res := 1000 |};
        stream.SBits {| stream.Bits_Bits := [5; 255];
                        stream.Bits_Res := 10 |}]
       10 (-1))
  = sum_durations
      (map stream.Duration
         [stream.SEdges {| stream.Edges_Edges := [1000; 1];
                           stream.Edges_Res := 1000 |};
          stream.SBits {| stream.Bits_Bits := [5; 255];
                          stream.Bits_Res := 10 |}])
    * Z.max 1 (-1).
Proof.
  apply (Program_Duration_loops
           [stream.SEdges {| stream.Edges_Edges := [1000; 1];
                             stream.Edges_Res := 1000 |};
            stream.SBits {| stream.Bits_Bits := [5; 255];
                            stream.Bits_Res := 10 |}]
           10 (-1)).
  - repeat constructor; vm_compute; discriminate.
  - vm_compute. discriminate.
Defined.

(** * Further properties of the LED driver *)

Lemma expandNRZ_data_bit b k :
  0 <= b < 256 -> 0 <= k < 8 ->
  Z.testbit (sk6812rgbw.expandNRZ b) (3 * k + 1) = Z.testbit b k.
Proof.
  intros Hb Hk. pose proof (expandNRZ_check_all b Hb) as H.
  unfold expandNRZ_check in H. cbv zeta in H.
  apply andb_true_iff in H as [_ Hall].
  rewrite forallb_forall in Hall.
  specialize (Hall (Z.to_nat k)). rewrite Z2Nat.id in Hall by lia.
  assert (Hin : In (Z.to_nat k) (seq 0 8)) by (apply in_seq; lia).
  specialize (Hall Hin). unfold expandNRZ_group in Hall.
  apply andb_true_iff in Hall as [Hall _].
  apply andb_true_iff in Hall as [_ H2].
  apply Bool.eqb_prop in H2. exact H2.
Qed.

(** The encoding loses nothing: two symbols with the same 24-bit pattern
    are the same symbol. *)
Theorem expandNRZ_injective b1 b2 :
  0 <= b1 < 256 -> 0 <= b2 < 256 ->
  sk6812rgbw.expandNRZ b1 = sk6812rgbw.expandNRZ b2 -> b1 = b2.
Proof.
  intros H1 H2 E. apply Z.bits_inj'. intros k Hk.
  destruct (Z_lt_le_dec k 8) as [Hlt|Hge].
  - rewrite <- (expandNRZ_data_bit b1 k), <- (expandNRZ_data_bit b2 k)
      by lia.
    rewrite E. reflexivity.
  - assert (Hhi : forall b, 0 <= b < 256 -> Z.testbit b k = false).
    { intros b Hb. destruct (Z.eq_dec b 0) as [->|]; [apply Z.bits_0|].
      apply Z.bits_above_log2; [lia|].
      assert (Z.log2 b < 8) by (apply Z.log2_lt_pow2; lia). lia. }
    rewrite !Hhi by lia. reflexivity.
Qed.

Lemma expandNRZ_injective_witness : 0xA5 = 0xA5.
Proof.
  apply (expandNRZ_injective 0xA5 0xA5); [lia | lia | reflexivity].
Defined.

#[local] Existing Instance sk6812rgbw.result_bind.

Lemma result_bind_Ret {A B : Type} (a : A) (f : A -> result B) :
  (Ret a ≫= f) = f a.
Proof. reflexivity. Qed.

Lemma store_ok (out : list Z) (i : nat) (v : Z) :
  (i < length out)%nat ->
  sk6812rgbw.store out i v = Ret (<[i := v]> out).
Proof.
  intros H. unfold sk6812rgbw.store.
  destruct (Nat.ltb_spec i (length out)); [reflexivity | lia].
Qed.

Lemma store_panics (out : list Z) (i : nat) (v : Z) :
  (length out <= i)%nat -> sk6812rgbw.store out i v = Panic.
Proof.
  intros H. unfold sk6812rgbw.store.
  destruct (Nat.ltb_spec i (length out)); [lia | reflexivity].
Qed.

(** One round of [raster]: nine writes to the same slot [out[3*i]], of
    which the last one stays. *)
Lemma raster_pixel_ok (in_ out : list Z) (i : nat) g r b :
  in_ !! (i + 1)%nat = Some g -> in_ !! i = Some r ->
  in_ !! (i + 2)%nat = Some b ->
  (3 * i < length out)%nat ->
  sk6812rgbw.raster_pixel in_ i out
  = Ret (<[(3 * i)%nat := uint8 (sk6812rgbw.expandNRZ b)]> out).
Proof.
  intros Hg Hr Hb Hlen. unfold sk6812rgbw.raster_pixel, sk6812rgbw.index.
  rewrite Hg, Hr, Hb. rewrite Nat.add_0_r.
  repeat first [ rewrite result_bind_Ret; cbv zeta
               | rewrite store_ok by (rewrite ?length_insert; lia) ].
  rewrite !list_insert_insert_eq. reflexivity.
Qed.

Lemma raster_pixel_not_OutOfFuel (in_ out : list Z) (i : nat) :
  sk6812rgbw.raster_pixel in_ i out <> OutOfFuel.
Proof.
  unfold sk6812rgbw.raster_pixel, sk6812rgbw.index, sk6812rgbw.store.
  repeat (match goal with
          | |- context [match ?l !! ?k with _ => _ end] => destruct (l !! k)
          | |- context [if ?c then _ else _] => destruct c
          end; cbn [mbind sk6812rgbw.result_bind]; try discriminate).
Qed.

Lemma raster_pixel_panics_short_input (in_ out : list Z) (i : nat) :
  (length in_ <= i + 2)%nat -> sk6812rgbw.raster_pixel in_ i out = Panic.
Proof.
  intros H. unfold sk6812rgbw.raster_pixel, sk6812rgbw.index.
  destruct (in_ !! (i + 1)%nat) as [g|]; [|reflexivity].
  rewrite result_bind_Ret. cbv zeta. rewrite Nat.add_0_r.
  destruct (Nat.lt_ge_cases (3 * i) (length out)) as [Hlt|Hge].
  - repeat first [ rewrite result_bind_Ret; cbv zeta
                 | rewrite store_ok by (rewrite ?length_insert; lia) ].
    destruct (in_ !! i) as [r|]; [|reflexivity].
    repeat first [ rewrite result_bind_Ret; cbv zeta
                 | rewrite store_ok by (rewrite ?length_insert; lia) ].
    rewrite (lookup_ge_None_2 in_ (i + 2)) by lia. reflexivity.
  - rewrite store_panics by lia. reflexivity.
Qed.

Lemma for_range_app {St : Type} (body : nat -> St -> result St) (a : nat) :
  forall (b i : nat) (s : St),
  stream.for_range (a + b) i body s
  = match stream.for_range a i body s with
    | Ret s' => stream.for_range b (i + a) body s'
    | Panic => Panic
    | OutOfFuel => OutOfFuel
    end.
Proof.
  induction a as [|a IH]; intros b i s; cbn [Nat.add stream.for_range].
  - rewrite Nat.add_0_r. reflexivity.
  - destruct (body i s) as [s'| |]; try reflexivity.
    rewrite IH. replace (S i + a)%nat with (i + S a)%nat by lia.
    reflexivity.
Qed.

Lemma for_range_not_OutOfFuel {St : Type} (body : nat -> St -> result St)
    (n : nat) :
  (forall k s, body k s <> OutOfFuel) ->
  forall i s, stream.for_range n i body s <> OutOfFuel.
Proof.
  intros Hb. induction n as [|n IH]; intros i s; cbn [stream.for_range];
    [discriminate|].
  destruct (body i s) as [s'| |] eqn:E; [apply IH | discriminate|].
  exfalso. exact (Hb i s E).
Qed.

Lemma div3_rounds (n r : nat) :
  (r < 3)%nat -> ((3 * n + r + 2) / 3)%nat = (n + (if r is 0 then 0 else 1))%nat.
Proof.
  intros H. symmetry.
  destruct r as [|[|[|r]]]; try lia.
  - apply Nat.div_unique with 2%nat; lia.
  - apply Nat.div_unique with 0%nat; lia.
  - apply Nat.div_unique with 1%nat; lia.
Qed.

(** The first [n] rounds of [raster] on an input of at least [3 * n]
    bytes. *)
Lemma raster_rounds (in_ out : list Z) (n : nat) :
  (3 * n <= length in_)%nat ->
  (n = 0 \/ 9 * (n - 1) < length out)%nat ->
  exists out',
    stream.for_range n 0 (fun t o => sk6812rgbw.raster_pixel in_ (3 * t) o)
      out = Ret out'
    /\ length out' = length out
    /\ (forall (p : nat) b, (p < n)%nat -> in_ !! (3 * p + 2)%nat = Some b ->
          out' !! (9 * p)%nat = Some (uint8 (sk6812rgbw.expandNRZ b)))
    /\ (forall k : nat, (forall p : nat, (p < n)%nat -> k <> (9 * p)%nat) ->
          out' !! k = out !! k).
Proof.
  intros Hin Hout.
  destruct (for_range_inv
    (fun t o =>
       length o = length out
       /\ (forall (p : nat) b, (p < t)%nat ->
             in_ !! (3 * p + 2)%nat = Some b ->
             o !! (9 * p)%nat = Some (uint8 (sk6812rgbw.expandNRZ b)))
       /\ (forall k : nat, (forall p : nat, (p < t)%nat -> k <> (9 * p)%nat) ->
             o !! k = out !! k))
    (fun t o => sk6812rgbw.raster_pixel in_ (3 * t) o) n 0 out)
    as (out' & E & H).
  - split; [reflexivity|]. split; [intros; lia | reflexivity].
  - intros t o Ht (Hl & Hv & Hf).
    destruct (lookup_lt_is_Some_2 in_ (3 * t + 1)) as [g Hg]; [lia|].
    destruct (lookup_lt_is_Some_2 in_ (3 * t)) as [r Hr]; [lia|].
    destruct (lookup_lt_is_Some_2 in_ (3 * t + 2)) as [b Hb]; [lia|].
    rewrite (raster_pixel_ok in_ o (3 * t) g r b Hg Hr Hb) by lia.
    eexists. split; [reflexivity|].
    replace (3 * (3 * t))%nat with (9 * t)%nat by lia.
    split; [rewrite length_insert; exact Hl|]. split.
    + intros p b' Hp Hb'.
      destruct (Nat.eq_dec p t) as [->|Hne].
      * rewrite list_lookup_insert_eq by lia. congruence.
      * rewrite list_lookup_insert_ne by lia. apply Hv; [lia | exact Hb'].
    + intros k Hk. rewrite list_lookup_insert_ne.
      * apply Hf. intros p Hp. apply Hk. lia.
      * intros Heq. apply (Hk t); lia.
  - exists out'. split; [exact E | exact H].
Qed.

(** [raster] on an input of [n] whole pixels of three bytes: pixel [p]
    is written to the single slot [out[9 * p]], which ends up holding the
    low byte of the encoded third byte of the pixel; every other byte of
    [out] is as it was, and [out] keeps its length.  The output must reach
    index [9 * (n - 1)]. *)
Theorem raster_writes_every_ninth_slot (out in_ : list Z) (n : nat) :
  length in_ = (3 * n)%nat ->
  (n = 0 \/ 9 * (n - 1) < length out)%nat ->
  exists out',
    sk6812rgbw.raster out in_ = Ret out'
    /\ length out' = length out
    /\ (forall (p : nat) b, (p < n)%nat -> in_ !! (3 * p + 2)%nat = Some b ->
          out' !! (9 * p)%nat = Some (uint8 (sk6812rgbw.expandNRZ b)))
    /\ (forall k : nat, (forall p : nat, (p < n)%nat -> k <> (9 * p)%nat) ->
          out' !! k = out !! k).
Proof.
  intros Hin Hout. unfold sk6812rgbw.raster.
  replace ((length in_ + 2) / 3)%nat with n.
  - apply raster_rounds; [lia | exact Hout].
  - rewrite Hin. pose proof (div3_rounds n 0 ltac:(lia)) as E.
    rewrite Nat.add_0_r in E. rewrite E. cbn. lia.
Qed.

Lemma raster_writes_every_ninth_slot_witness :
  exists out',
    sk6812rgbw.raster (replicate 16 7) [1; 2; 3; 4; 5; 6] = Ret out'
    /\ length out' = length (replicate 16 7)
    /\ (forall (p : nat) b, (p < 2)%nat ->
          [1; 2; 3; 4; 5; 6] !! (3 * p + 2)%nat = Some b ->
          out' !! (9 * p)%nat = Some (uint8 (sk6812rgbw.expandNRZ b)))
    /\ (forall k : nat, (forall p : nat, (p < 2)%nat -> k <> (9 * p)%nat) ->
          out' !! k = replicate 16 7 !! k).
Proof.
  apply (raster_writes_every_ninth_slot (replicate 16 7) [1; 2; 3; 4; 5; 6] 2).
  - reflexivity.
  - right. cbn. lia.
Defined.

(** [raster] panics on every input whose length is not a multiple of 3:
    the last round reads past the end of [in]. *)
Theorem raster_panics_on_partial_pixel (out in_ : list Z) :
  (length in_ mod 3 <> 0)%nat -> sk6812rgbw.raster out in_ = Panic.
Proof.
  intros Hmod. unfold sk6812rgbw.raster.
  pose proof (Nat.div_mod_eq (length in_) 3) as D.
  pose proof (Nat.mod_upper_bound (length in_) 3 ltac:(lia)) as Hr.
  set (n := (length in_ / 3)%nat) in *.
  set (r := (length in_ mod 3)%nat) in *.
  rewrite D, (div3_rounds n r Hr).
  destruct r as [|r]; [contradiction|].
  rewrite for_range_app.
  destruct (stream.for_range n 0
              (fun t o => sk6812rgbw.raster_pixel in_ (3 * t) o) out)
    as [o| |] eqn:E; [|reflexivity|].
  - cbn [stream.for_range Nat.add].
    rewrite raster_pixel_panics_short_input by lia. reflexivity.
  - exfalso. revert E. apply for_range_not_OutOfFuel.
    intros k s. apply raster_pixel_not_OutOfFuel.
Qed.

Lemma raster_panics_on_partial_pixel_witness :
  sk6812rgbw.raster (replicate 16 0) [1; 2; 3; 4] = Panic.
Proof.
  apply (raster_panics_on_partial_pixel (replicate 16 0) [1; 2; 3; 4]).
  cbn. discriminate.
Defined.

Lemma store_length (out : list Z) (i : nat) (v : Z) o :
  sk6812rgbw.store out i v = Ret o -> length o = length out.
Proof.
  unfold sk6812rgbw.store. destruct (i <? length out)%nat; [|discriminate].
  intros E. injection E as <-. apply length_insert.
Qed.

Lemma raster_pixel_length (in_ out : list Z) (i : nat) o :
  sk6812rgbw.raster_pixel in_ i out = Ret o -> length o = length out.
Proof.
  unfold sk6812rgbw.raster_pixel, sk6812rgbw.index.
  repeat (match goal with
          | |- context [match ?l !! ?k with _ => _ end] =>
              destruct (l !! k); [rewrite result_bind_Ret; cbv zeta
                                 | discriminate]
          | |- context [sk6812rgbw.store ?o ?k ?v ≫= _] =>
              let E := fresh "E" in
              destruct (sk6812rgbw.store o k v) eqn:E;
              [rewrite result_bind_Ret; apply store_length in E
              | discriminate | discriminate]
          end).
  intros Elast. apply store_length in Elast. congruence.
Qed.

Lemma raster_rounds_length (in_ : list Z) (n : nat) :
  forall (i : nat) (out o : list Z),
  stream.for_range n i (fun t o => sk6812rgbw.raster_pixel in_ (3 * t) o) out
  = Ret o ->
  length o = length out.
Proof.
  induction n as [|n IH]; intros i out o; cbn [stream.for_range].
  - intros E. injection E as <-. reflexivity.
  - destruct (sk6812rgbw.raster_pixel in_ (3 * i) out) as [o1| |] eqn:E1;
      try discriminate.
    intros E. apply IH in E. apply raster_pixel_length in E1. congruence.
Qed.

Lemma raster_short_output (out in_ : list Z) (n : nat) :
  length in_ = (3 * n)%nat -> (1 <= n)%nat ->
  (length out <= 9 * (n - 1))%nat ->
  sk6812rgbw.raster out in_ = Panic.
Proof.
  intros Hin Hn Hout. unfold sk6812rgbw.raster.
  replace ((length in_ + 2) / 3)%nat with ((n - 1) + 1)%nat.
  - rewrite for_range_app.
    destruct (stream.for_range (n - 1) 0
                (fun t o => sk6812rgbw.raster_pixel in_ (3 * t) o) out)
      as [o| |] eqn:E; [|reflexivity|].
    + apply raster_rounds_length in E.
      cbn [stream.for_range Nat.add].
      unfold sk6812rgbw.raster_pixel, sk6812rgbw.index.
      destruct (in_ !! (3 * (n - 1) + 1)%nat) as [g|]; [|reflexivity].
      rewrite result_bind_Ret. cbv zeta.
      rewrite store_panics by lia. reflexivity.
    + exfalso. revert E. apply for_range_not_OutOfFuel.
      intros k s. apply raster_pixel_not_OutOfFuel.
  - rewrite Hin. pose proof (div3_rounds n 0 ltac:(lia)) as E.
    rewrite Nat.add_0_r in E. rewrite E. cbn. lia.
Qed.

(** [raster] panics when [out] does not reach the slot of the last pixel,
    [out[9 * (n - 1)]]. *)
Theorem raster_panics_on_short_output (out in_ : list Z) (n : nat) :
  length in_ = (3 * n)%nat -> (1 <= n)%nat ->
  (length out <= 9 * (n - 1))%nat ->
  sk6812rgbw.raster out in_ = Panic.
Proof. exact (raster_short_output out in_ n). Qed.

Lemma raster_panics_on_short_output_witness :
  sk6812rgbw.raster (replicate 16 0) [1; 2; 3; 4; 5; 6; 7; 8; 9] = Panic.
Proof.
  apply (raster_panics_on_short_output (replicate 16 0)
           [1; 2; 3; 4; 5; 6; 7; 8; 9] 3);
    [reflexivity | lia | cbn; lia].
Defined.

Lemma Write_cases pStream (d : sk6812rgbw.Dev) (pixels : list Z)
    (n : nat) :
  ((length pixels mod 3 <> 0)%nat ->
   sk6812rgbw.Write pStream d pixels
   = Ret (d, (0, Some sk6812rgbw.errLength)))
  /\ (length pixels = (3 * n)%nat ->
      (n = 0 \/ 9 * (n - 1)
                < length (stream.Bits_Bits (sk6812rgbw.b d)))%nat ->
      exists bits,
        sk6812rgbw.raster (stream.Bits_Bits (sk6812rgbw.b d)) pixels
        = Ret bits
        /\ let b' := {| stream.Bits_Bits := bits;
                        stream.Bits_Res := stream.Bits_Res (sk6812rgbw.b d) |}
           in
           sk6812rgbw.Write pStream d pixels
           = Ret ({| sk6812rgbw.numLights := sk6812rgbw.numLights d;
                     sk6812rgbw.b := b' |},
                  (Z.of_nat (length pixels), pStream b')))
  /\ (length pixels = (3 * n)%nat -> (1 <= n)%nat ->
      (length (stream.Bits_Bits (sk6812rgbw.b d)) <= 9 * (n - 1))%nat ->
      sk6812rgbw.Write pStream d pixels = Panic).
Proof.
  assert (Hz : forall k : nat,
            length pixels = (3 * k)%nat ->
            (Z.of_nat (length pixels) mod 3 =? 0) = true).
  { intros k ->. apply Z.eqb_eq. rewrite Nat2Z.inj_mul, Z.mul_comm.
    apply Z.mod_mul. lia. }
  split; [|split].
  - intros Hmod. unfold sk6812rgbw.Write.
    destruct (Z.eqb_spec (Z.of_nat (length pixels) mod 3) 0) as [E|];
      [|reflexivity].
    exfalso. apply Hmod.
    change 3 with (Z.of_nat 3) in E. rewrite <- Nat2Z.inj_mod in E. lia.
  - intros Hlen Hfit.
    destruct (raster_rounds pixels (stream.Bits_Bits (sk6812rgbw.b d)) n)
      as (bits & E & _); [lia | exact Hfit |].
    assert (Er : sk6812rgbw.raster (stream.Bits_Bits (sk6812rgbw.b d)) pixels
                 = Ret bits).
    { unfold sk6812rgbw.raster.
      replace ((length pixels + 2) / 3)%nat with n; [exact E|].
      rewrite Hlen. pose proof (div3_rounds n 0 ltac:(lia)) as D.
      rewrite Nat.add_0_r in D. rewrite D. cbn. lia. }
    exists bits. split; [exact Er|]. cbv zeta.
    unfold sk6812rgbw.Write. rewrite (Hz n Hlen). cbn [negb].
    rewrite Er. reflexivity.
  - intros Hlen Hn Hshort. unfold sk6812rgbw.Write.
    rewrite (Hz n Hlen). cbn [negb].
    rewrite (raster_short_output _ pixels n Hlen Hn Hshort).
    reflexivity.
Qed.

(** The three outcomes of [Dev.Write].  A pixel stream whose length is
    not a multiple of 3 is refused with [errLength] before [raster] runs:
    the pin is not called and the buffer is not written.  Whole pixels
    that fit are rasterized into the device's buffer, the pin streams
    that buffer, and the byte count and the pin's error are returned.
    Whole pixels whose last slot is beyond the buffer make [Write]
    panic. *)
Theorem Write_outcome pStream (d : sk6812rgbw.Dev) (pixels : list Z)
    (n : nat) :
  ((length pixels mod 3 <> 0)%nat ->
   sk6812rgbw.Write pStream d pixels
   = Ret (d, (0, Some sk6812rgbw.errLength)))
  /\ (length pixels = (3 * n)%nat ->
      (n = 0 \/ 9 * (n - 1)
                < length (stream.Bits_Bits (sk6812rgbw.b d)))%nat ->
      exists bits,
        sk6812rgbw.raster (stream.Bits_Bits (sk6812rgbw.b d)) pixels
        = Ret bits
        /\ let b' := {| stream.Bits_Bits := bits;
                        stream.Bits_Res := stream.Bits_Res (sk6812rgbw.b d) |}
           in
           sk6812rgbw.Write pStream d pixels
           = Ret ({| sk6812rgbw.numLights := sk6812rgbw.numLights d;
                     sk6812rgbw.b := b' |},
                  (Z.of_nat (length pixels), pStream b')))
  /\ (length pixels = (3 * n)%nat -> (1 <= n)%nat ->
      (length (stream.Bits_Bits (sk6812rgbw.b d)) <= 9 * (n - 1))%nat ->
      sk6812rgbw.Write pStream d pixels = Panic).
Proof. exact (Write_cases pStream d pixels n). Qed.

Lemma Write_outcome_witness :
  sk6812rgbw.Write (fun _ => None)
    {| sk6812rgbw.numLights := 1;
       sk6812rgbw.b := {| stream.Bits_Bits := replicate 16 0;
                          stream.Bits_Res := 2500 |} |}
    [1; 2; 3; 4]
  = Ret ({| sk6812rgbw.numLights := 1;
            sk6812rgbw.b := {| stream.Bits_Bits := replicate 16 0;
                               stream.Bits_Res := 2500 |} |},
         (0, Some sk6812rgbw.errLength)).
Proof.
  apply (proj1 (Write_outcome (fun _ => None)
                  {| sk6812rgbw.numLights := 1;
                     sk6812rgbw.b := {| stream.Bits_Bits := replicate 16 0;
                                        stream.Bits_Res := 2500 |} |}
                  [1; 2; 3; 4] 1)).
  cbn. discriminate.
Defined.

(** * Properties of duty cycles (package gpio) *)

Lemma substring_0_0 (s : string) : String.substring 0 0 s = ""%string.
Proof. destruct s; reflexivity. Qed.

Lemma substring_prefix (s t : string) :
  String.substring 0 (String.length s) (String.append s t) = s.
Proof.
  induction s as [|c s IH]; simpl.
  - apply substring_0_0.
  - f_equal. exact IH.
Qed.

Lemma substring_all (t : string) :
  String.substring 0 (String.length t) t = t.
Proof.
  induction t as [|c t IH]; simpl; [reflexivity | f_equal; exact IH].
Qed.

Lemma substring_suffix (s t : string) :
  String.substring (String.length s) (String.length t) (String.append s t) = t.
Proof. induction s as [|c s IH]; simpl; [apply substring_all | exact IH]. Qed.

Lemma length_append_percent (s : string) :
  String.length (String.append s "%") = S (String.length s).
Proof.
  induction s as [|c s IH]; simpl; [reflexivity | f_equal; exact IH].
Qed.

Lemma HasSuffix_percent (s : string) :
  gpio.HasSuffix (String.append s "%") "%" = true
  /\ String.substring 0 (String.length (String.append s "%") - 1)
       (String.append s "%") = s.
Proof.
  unfold gpio.HasSuffix. rewrite length_append_percent.
  change (String.length "%") with 1%nat.
  replace (S (String.length s) - 1)%nat with (String.length s) by lia.
  split.
  - apply andb_true_iff. split; [apply Nat.leb_le; lia|].
    apply String.eqb_eq.
    exact (substring_suffix s "%").
  - apply substring_prefix.
Qed.

Lemma Duty_percent_eq d :
  0 <= d <= gpio.DutyMax -> gpio.Duty_percent d = (d + 50) / 655.
Proof.
  intros Hd. unfold gpio.Duty_percent, gpio.DutyMax, uint32 in *.
  rewrite (Z.mod_small d) by (unfold two32; lia).
  rewrite (Z.mod_small (d + 50)) by (unfold two32; lia).
  reflexivity.
Qed.

(** [Duty.String] prints a percentage between 0 and 100 for every duty
    from 0 to [DutyMax], and a larger duty never prints a smaller
    percentage. *)
Theorem Duty_percent_monotone d1 d2 :
  0 <= d1 <= d2 -> d2 <= gpio.DutyMax ->
  0 <= gpio.Duty_percent d1 <= gpio.Duty_percent d2
  /\ gpio.Duty_percent d2 <= 100.
Proof.
  intros H1 H2.
  assert (B1 : 0 <= d1 <= gpio.DutyMax) by lia.
  assert (B2 : 0 <= d2 <= gpio.DutyMax) by lia.
  rewrite (Duty_percent_eq d1 B1), (Duty_percent_eq d2 B2).
  unfold gpio.DutyMax in *.
  repeat split.
  - apply Z.div_pos; lia.
  - apply Z.div_le_mono; lia.
  - assert ((d2 + 50) / 655 < 101)
      by (apply Z.div_lt_upper_bound; lia).
    lia.
Qed.

Lemma Duty_percent_monotone_witness :
  0 <= gpio.Duty_percent (gpio.DutyHalf - 1)
  <= gpio.Duty_percent (gpio.DutyHalf + 1)
  /\ gpio.Duty_percent (gpio.DutyHalf + 1) <= 100.
Proof.
  apply (Duty_percent_monotone (gpio.DutyHalf - 1) (gpio.DutyHalf + 1));
    vm_compute; repeat split; discriminate.
Defined.

Lemma percent_roundtrip_check p :
  0 <= p <= 100 ->
  gpio.Duty_percent (uint16 ((p * gpio.DutyMax + 49) / 100)) = p
  /\ 0 <= uint16 ((p * gpio.DutyMax + 49) / 100) <= gpio.DutyMax.
Proof.
  intros Hp.
  assert (H : percent_roundtrip_ok p = true).
  { apply (Z_range_check percent_roundtrip_ok 0 101);
      [vm_compute; reflexivity | lia]. }
  unfold percent_roundtrip_ok in H. cbv zeta in H.
  apply andb_true_iff in H as [H H3]. apply andb_true_iff in H as [H1 H2].
  apply Z.eqb_eq in H1. apply Z.leb_le in H2, H3. auto.
Qed.

Section ParseDuty.

Context {E : Type} (ParseInt : string -> Z -> Z -> Z * option E).

Lemma ParseDuty_percent_ok (s : string) (p : Z) :
  ParseInt s 10 32 = (p, None) -> 0 <= p <= 100 ->
  gpio.ParseDuty ParseInt (String.append s "%")
  = (uint16 ((p * gpio.DutyMax + 49) / 100), None).
Proof using Type.
  intros Hparse Hp. unfold gpio.ParseDuty.
  destruct (HasSuffix_percent s) as [-> ->]. cbv zeta.
  rewrite Hparse.
  destruct (Z.ltb_spec p 0); [lia|].
  destruct (Z.gtb_spec p 100); [lia|]. reflexivity.
Qed.

End ParseDuty.

(** Round trip through a percentage: when [strconv.ParseInt] reads the
    integer [p], from 0 to 100, in [s], [ParseDuty] of [s] followed by a
    percent sign succeeds with a duty in range that [Duty.String] prints
    as [p] percent again. *)
Theorem ParseDuty_percent_roundtrip {E : Type}
    (ParseInt : string -> Z -> Z -> Z * option E) (s : string) (p : Z) :
  ParseInt s 10 32 = (p, None) -> 0 <= p <= 100 ->
  exists d,
    gpio.ParseDuty ParseInt (String.append s "%") = (d, None)
    /\ 0 <= d <= gpio.DutyMax
    /\ gpio.Duty_percent d = p.
Proof.
  intros Hparse Hp. eexists. split.
  - apply (ParseDuty_percent_ok ParseInt s p Hparse Hp).
  - destruct (percent_roundtrip_check p Hp). auto.
Qed.

Lemma ParseDuty_percent_roundtrip_witness :
  exists d,
    gpio.ParseDuty (E := unit) (fun _ _ _ => (50, None))
      (String.append "50" "%") = (d, None)
    /\ 0 <= d <= gpio.DutyMax
    /\ gpio.Duty_percent d = 50.
Proof.
  apply (ParseDuty_percent_roundtrip (E := unit)
           (fun _ _ _ => (50, None)) "50" 50);
    [reflexivity | lia].
Defined.

(** Parsing what [Duty.String] printed: if [strconv.ParseInt] reads back
    the number that the decimal printer wrote, [ParseDuty] succeeds on the
    output of [Duty.String] with a duty that prints alike. *)
Theorem ParseDuty_of_Duty_String {E : Type}
    (ParseInt : string -> Z -> Z -> Z * option E)
    (Sprintf_d : Z -> string) (d : Z) :
  0 <= d <= gpio.DutyMax ->
  ParseInt (Sprintf_d (gpio.Duty_percent d)) 10 32
  = (gpio.Duty_percent d, None) ->
  exists d',
    gpio.ParseDuty ParseInt (gpio.Duty_String Sprintf_d d) = (d', None)
    /\ 0 <= d' <= gpio.DutyMax
    /\ gpio.Duty_String Sprintf_d d' = gpio.Duty_String Sprintf_d d.
Proof.
  intros Hd Hparse.
  assert (Hp : 0 <= gpio.Duty_percent d <= 100).
  { rewrite Duty_percent_eq by exact Hd. unfold gpio.DutyMax in Hd. split.
    - apply Z.div_pos; lia.
    - assert ((d + 50) / 655 < 101)
        by (apply Z.div_lt_upper_bound; lia).
      lia. }
  eexists. split.
  - unfold gpio.Duty_String.
    apply (ParseDuty_percent_ok ParseInt _ _ Hparse Hp).
  - destruct (percent_roundtrip_check _ Hp) as [E1 E2].
    split; [exact E2|]. unfold gpio.Duty_String. rewrite E1. reflexivity.
Qed.

Lemma ParseDuty_of_Duty_String_witness :
  exists d',
    gpio.ParseDuty (E := unit) (fun _ _ _ => (50, None))
      (gpio.Duty_String (fun _ => "50"%string) gpio.DutyHalf) = (d', None)
    /\ 0 <= d' <= gpio.DutyMax
    /\ gpio.Duty_String (fun _ => "50"%string) d'
       = gpio.Duty_String (fun _ => "50"%string) gpio.DutyHalf.
Proof.
  apply (ParseDuty_of_Duty_String (E := unit) (fun _ _ _ => (50, None))
           (fun _ => "50"%string) gpio.DutyHalf);
    [vm_compute; split; discriminate | reflexivity].
Defined.

(** [ParseDuty] never returns a duty above [DutyMax], whatever the string
    and whatever [strconv.ParseInt] makes of it, and every error comes
    with a duty of 0. *)
Theorem ParseDuty_in_range {E : Type}
    (ParseInt : string -> Z -> Z -> Z * option E) (s : string) :
  0 <= fst (gpio.ParseDuty ParseInt s) <= gpio.DutyMax
  /\ (snd (gpio.ParseDuty ParseInt s) <> None ->
      fst (gpio.ParseDuty ParseInt s) = 0).
Proof.
  unfold gpio.ParseDuty. cbv zeta.
  set (s' := if gpio.HasSuffix s "%" then _ else s).
  destruct (ParseInt s' 10 32) as [i [e|]]; cbn [fst snd].
  - split; [unfold gpio.DutyMax; lia | reflexivity].
  - destruct (gpio.HasSuffix s "%").
    + destruct (Z.ltb_spec i 0);
        [cbn [fst snd]; split; [unfold gpio.DutyMax; lia | reflexivity]|].
      destruct (Z.gtb_spec i 100);
        [cbn [fst snd]; split; [unfold gpio.DutyMax; lia | reflexivity]|].
      cbn [fst snd]. split; [|congruence].
      apply (percent_roundtrip_check i). lia.
    + destruct (Z.ltb_spec i 0);
        [cbn [fst snd]; split; [unfold gpio.DutyMax; lia | reflexivity]|].
      destruct (Z.gtb_spec i gpio.DutyMax);
        [cbn [fst snd]; split; [unfold gpio.DutyMax; lia | reflexivity]|].
      cbn [fst snd]. split; [|congruence].
      unfold uint16, gpio.DutyMax in *. rewrite Z.mod_small; lia.
Qed.

(** A device made by [New] for [numLights] lights (with [numLights*4*4]
    in the range of [int]) takes a frame of up to [numLights] pixels of
    three bytes: [Write] does not panic, rasterizes
    into the device's buffer of [16 * numLights] bytes, and returns the
    byte count together with the pin's error. *)
Theorem New_then_Write pStream (numLights speed : Z) (pixels : list Z)
    (n : nat) :
  1 <= numLights -> numLights * 4 * 4 <= max_int ->
  length pixels = (3 * n)%nat ->
  Z.of_nat n <= numLights ->
  exists d d',
    sk6812rgbw.New true numLights speed = Ret (Some d, None)
    /\ Z.of_nat (length (stream.Bits_Bits (sk6812rgbw.b d)))
       = 16 * numLights
    /\ sk6812rgbw.Write pStream d pixels
       = Ret (d', (Z.of_nat (length pixels),
                   pStream (sk6812rgbw.b d')))
    /\ length (stream.Bits_Bits (sk6812rgbw.b d'))
       = length (stream.Bits_Bits (sk6812rgbw.b d)).
Proof.
  intros Hn Hint Hlen Hfit.
  set (d := {| sk6812rgbw.numLights := numLights;
               sk6812rgbw.b :=
                 {| stream.Bits_Bits :=
                      replicate (Z.to_nat (numLights * 4 * 4)) 0;
                    stream.Bits_Res :=
                      Z.quot 1000000000
                        (if speed =? 0 then 400000 else speed) |} |}).
  assert (HNew : sk6812rgbw.New true numLights speed = Ret (Some d, None)).
  { unfold sk6812rgbw.New. cbn [negb]. cbv zeta.
    destruct (Z.ltb_spec (numLights * 4 * 4) 0); [lia | reflexivity]. }
  assert (Hbuf : length (stream.Bits_Bits (sk6812rgbw.b d))
                 = Z.to_nat (numLights * 4 * 4))
    by (apply length_replicate).
  destruct (raster_rounds pixels (stream.Bits_Bits (sk6812rgbw.b d)) n)
    as (bits' & E & Hl & _); [lia | rewrite Hbuf; lia |].
  destruct (proj1 (proj2 (Write_cases pStream d pixels n)) Hlen)
    as (bits & Er & Ew); [rewrite Hbuf; lia|].
  cbv zeta in Ew.
  exists d. eexists. split; [exact HNew|].
  split; [rewrite Hbuf; lia|]. split; [exact Ew|].
  cbn [sk6812rgbw.b stream.Bits_Bits].
  unfold sk6812rgbw.raster in Er.
  replace ((length pixels + 2) / 3)%nat with n in Er.
  - rewrite E in Er. injection Er as <-. rewrite Hl. reflexivity.
  - rewrite Hlen. pose proof (div3_rounds n 0 ltac:(lia)) as D.
    rewrite Nat.add_0_r in D. rewrite D. cbn. lia.
Qed.

Lemma New_then_Write_witness :
  exists d d',
    sk6812rgbw.New true 2 0 = Ret (Some d, None)
    /\ Z.of_nat (length (stream.Bits_Bits (sk6812rgbw.b d))) = 16 * 2
    /\ sk6812rgbw.Write (fun _ => None) d [1; 2; 3; 4; 5; 6]
       = Ret (d', (Z.of_nat (length [1; 2; 3; 4; 5; 6]),
                   (fun _ => None) (sk6812rgbw.b d')))
    /\ length (stream.Bits_Bits (sk6812rgbw.b d'))
       = length (stream.Bits_Bits (sk6812rgbw.b d)).
Proof.
  apply (New_then_Write (fun _ => None) 2 0 [1; 2; 3; 4; 5; 6] 2);
    [lia | vm_compute; discriminate | reflexivity | cbn; lia].
Defined.
